(** * LNWallet (electrum_ltc/lnworker.py): a shallow embedding

    The worker object is modelled as a record [LNWallet] holding the
    dictionaries the Python class owns (invoices, preimages, channels), the
    wallet storage, and a log of the outward effects (callbacks, broadcasts,
    wallet calls).  Methods are state transformers in a small state and
    exception monad: a raised exception keeps the mutations made before it,
    as in Python.  Coroutines are followed as one sequential task; the
    logger is not modelled and exception messages that print a value keep
    their fixed text only.  Collaborators that live outside lnworker.py
    (lndecode, the path finder, the channel database, the watcher, sha256)
    are section variables. *)

From stdpp Require Import gmap strings list.
From Stdlib Require Import QArith.
From Stdlib.Strings Require Import Byte Ascii String.
Abbreviation length := List.length.
Close Scope Q_scope.

Abbreviation bytes := (list byte).

#[global] Instance byte_eq_decision : EqDecision byte := Byte.byte_eq_dec.

(** ** bh2u / bfh (bytes.hex and bytes.fromhex) *)
Module Hex.

(** The digit for a nibble: '0'..'9' are codes 48..57, 'a'..'f' 97..102. *)
Definition hexdigit (n : N) : ascii :=
  if (n <? 10)%N then ascii_of_N (48 + n) else ascii_of_N (87 + n).

(** The value of a digit; fromhex takes both letter cases. *)
Definition unhex (c : ascii) : option N :=
  let code := N_of_ascii c in
  if (48 <=? code)%N && (code <=? 57)%N then Some (code - 48)%N
  else if (97 <=? code)%N && (code <=? 102)%N then Some (code - 87)%N
  else if (65 <=? code)%N && (code <=? 70)%N then Some (code - 55)%N
  else None.

Definition byte_of_hex (hi lo : ascii) : option byte :=
  match unhex hi, unhex lo with
  | Some h, Some l => Byte.of_N (h * 16 + l)
  | _, _ => None
  end.

(** [bh2u x] is [x.hex()]: two lowercase digits per byte. *)
Fixpoint bh2u (x : bytes) : string :=
  match x with
  | [] => EmptyString
  | b :: r =>
      let n := Byte.to_N b in
      String (hexdigit (n / 16)) (String (hexdigit (n mod 16)) (bh2u r))
  end.

(** [bfh s] is [bytes.fromhex s] on strings without whitespace; [None]
    stands for the ValueError. *)
Fixpoint bfh (s : string) : option bytes :=
  match s with
  | EmptyString => Some []
  | String _ EmptyString => None
  | String hi (String lo r) =>
      match byte_of_hex hi lo, bfh r with
      | Some b, Some t => Some (b :: t)
      | _, _ => None
      end
  end.

End Hex.
Export Hex.

(** ** Data model *)

(** lnutil.Direction and the PR_* request states of util.py. *)
Inductive Direction := SENT | RECEIVED.
Inductive PRStatus := PR_UNPAID | PR_EXPIRED | PR_UNKNOWN | PR_PAID | PR_INFLIGHT.

#[global] Instance Direction_eq_decision : EqDecision Direction.
Proof. solve_decision. Defined.
#[global] Instance PRStatus_eq_decision : EqDecision PRStatus.
Proof. solve_decision. Defined.

(** class InvoiceInfo(NamedTuple) *)
Record InvoiceInfo := mkInvoiceInfo {
  payment_hash : bytes;
  amount : option Z;
  direction : Direction;
  status : PRStatus;
}.

(** [info._replace(status=s)] *)
Definition replace_status (info : InvoiceInfo) (s : PRStatus) : InvoiceInfo :=
  mkInvoiceInfo (payment_hash info) (amount info) (direction info) s.

(** The value kept per hex payment hash: [amount, direction, status]. *)
Definition InvoiceTuple : Type := option Z * Direction * PRStatus.

Record Outpoint := mkOutpoint {
  txid : string;
  output_index : Z;
}.

Record RemoteConfig := mkRemoteConfig {
  next_per_commitment_point : option bytes;
  current_per_commitment_point : option bytes;
  dust_limit_sat : Z;
}.

(** The attributes of lnchannel.Channel that lnworker.py reads or writes.
    [state] is what [get_state()] returns, [balance_REMOTE] is
    [balance(REMOTE)] in msat. *)
Record Channel := mkChannel {
  channel_id : bytes;
  node_id : bytes;
  funding_outpoint : Outpoint;
  short_channel_id : option bytes;
  short_channel_id_predicted : option bytes;
  state : string;
  config_REMOTE : RemoteConfig;
  funding_txn_minimum_depth : Z;
  balance_LOCAL : Z;
  balance_REMOTE : Z;
  force_closed : bool;
}.

#[global] Instance Outpoint_eq_decision : EqDecision Outpoint.
Proof. solve_decision. Defined.
#[global] Instance RemoteConfig_eq_decision : EqDecision RemoteConfig.
Proof. solve_decision. Defined.
#[global] Instance Channel_eq_decision : EqDecision Channel.
Proof. solve_decision. Defined.



Record Transaction := mkTransaction {
  tx_txid : string;
  tx_raw : bytes;
}.

(** lnrouter.RouteEdge *)
Module RouteEdge.
Record t := mk {
  node_id : bytes;
  short_channel_id : bytes;
  fee_base_msat : Z;
  fee_proportional_millionths : Z;
  cltv_expiry_delta : Z;
}.
End RouteEdge.

(** lnsweep.SweepInfo; [gen_tx] holds what the call [gen_tx()] returns. *)
Module SweepInfo.
Record t := mk {
  name : string;
  csv_delay : option Z;
  cltv_expiry : option Z;
  gen_tx : option Transaction;
}.
End SweepInfo.

#[global] Instance Transaction_eq_decision : EqDecision Transaction.
Proof. solve_decision. Defined.

(** channel_db: a routing policy and a channel announcement. *)
Record Policy := mkPolicy {
  fee_base_msat : Z;
  fee_proportional_millionths : Z;
  cltv_expiry_delta : Z;
}.

Record ChannelInfo := mkChannelInfo {
  info_short_channel_id : bytes;
}.

(** One hop of an 'r' tag:
    (node id, short channel id, fee base, fee ppm, cltv delta). *)
Definition HintEdge : Type := bytes * bytes * Z * Z * Z.

(** BOLT-11 tags as lnworker.py builds and reads them. *)
Inductive Tag :=
| Tag_r (route : list HintEdge)
| Tag_d (description : string)
| Tag_c (min_final_cltv_expiry : Z)
| Tag_x (expiry : Z).

(** lnaddr.LnAddr: the decoded invoice. [addr_amount] is the [amount]
    attribute, a Decimal in coin units or None; [pubkey] is
    [pubkey.serialize()]. *)
Record LnAddr := mkLnAddr {
  paymenthash : bytes;
  addr_amount : option Q;
  tags : list Tag;
  date : Z;
  pubkey : bytes;
}.

Definition set_amount (addr : LnAddr) (a : option Q) : LnAddr :=
  mkLnAddr (paymenthash addr) a (tags addr) (date addr) (pubkey addr).

(** A path as the path finder returns it: (node id, short channel id). *)
Definition Path : Type := list (bytes * bytes).

(** What [storage.put] is given under each key. *)
Inductive StorageValue :=
| SV_invoices (m : gmap string InvoiceTuple)
| SV_preimages (m : gmap string string)
| SV_channels (dumped : list Channel).

(** Outward effects, in program order. A channel is named by the address of
    its object. *)
Inductive Effect :=
| Callback_channel (chan : nat)
| Callback_channels
| Callback_payment_received (key : string) (st : PRStatus)
| Callback_payment_status (key : string) (what : string) (attempt : option nat)
| Callback_htlc_added (htlc_id : Z) (payment_hash : bytes)
| Broadcast (tx : Transaction)
| Wallet_set_label (key : string) (label : string)
| Wallet_add_future_tx (tx : Transaction) (remaining : option Z).

#[global] Instance Effect_eq_decision : EqDecision Effect.
Proof. solve_decision. Defined.

(** The LNWallet object. Channel objects are shared and mutated in place, so
    they live in [heap] and the [channels] dict maps a channel id to an
    address; the dict keeps insertion order. *)
Record LNWallet := mkLNWallet {
  invoices : gmap string InvoiceTuple;
  preimages : gmap string string;
  heap : gmap nat Channel;
  channels : list (bytes * nat);
  storage : gmap string StorageValue;
  storage_writes : nat;
  effects : list Effect;
}.

Inductive Exn :=
| PaymentFailure (msg : string)
| InvoiceError (msg : string)
| UnknownPaymentHash (h : bytes)
| LnDecodeException
| AssertionError
| AttributeError
| TypeError
| KeyError
| IndexError
| ValueError
| Exception (msg : string).

Inductive Result (A : Type) :=
| Ok (a : A)
| Raise (e : Exn).
Arguments Ok {A} a.
Arguments Raise {A} e.

(** ** The state and exception monad *)
Definition M (A : Type) : Type := LNWallet -> Result A * LNWallet.

Definition ret {A} (a : A) : M A := fun w => (Ok a, w).
Definition raise {A} (e : Exn) : M A := fun w => (Raise e, w).
Definition bind {A B} (m : M A) (k : A -> M B) : M B :=
  fun w => match m w with
           | (Ok a, w') => k a w'
           | (Raise e, w') => (Raise e, w')
           end.
Definition gets {A} (f : LNWallet -> A) : M A := fun w => (Ok (f w), w).
Definition modify (f : LNWallet -> LNWallet) : M unit := fun w => (Ok tt, f w).

Declare Scope ln_scope.
Delimit Scope ln_scope with ln.
Notation "'do' x <- m ; k" := (bind m (fun x => k))
  (at level 20, x name, m at level 100, k at level 200) : ln_scope.
Notation "m ;; k" := (bind m (fun _ => k))
  (at level 100, k at level 200, right associativity) : ln_scope.
Open Scope ln_scope.

(** Field updates of the worker object. *)
Definition with_invoices (f : gmap string InvoiceTuple -> gmap string InvoiceTuple) (w : LNWallet) : LNWallet :=
  mkLNWallet (f (invoices w)) (preimages w) (heap w) (channels w)
    (storage w) (storage_writes w) (effects w).

Definition with_preimages (f : gmap string string -> gmap string string) (w : LNWallet) : LNWallet :=
  mkLNWallet (invoices w) (f (preimages w)) (heap w) (channels w)
    (storage w) (storage_writes w) (effects w).

Definition with_heap (f : gmap nat Channel -> gmap nat Channel) (w : LNWallet) : LNWallet :=
  mkLNWallet (invoices w) (preimages w) (f (heap w)) (channels w)
    (storage w) (storage_writes w) (effects w).

Definition with_channels (f : list (bytes * nat) -> list (bytes * nat)) (w : LNWallet) : LNWallet :=
  mkLNWallet (invoices w) (preimages w) (heap w) (f (channels w))
    (storage w) (storage_writes w) (effects w).

(** [self.storage.put(key, value)] *)
Definition storage_put (key : string) (v : StorageValue) : M unit :=
  modify (fun w =>
    mkLNWallet (invoices w) (preimages w) (heap w) (channels w)
      (<[key := v]> (storage w)) (storage_writes w) (effects w)).

(** [self.storage.write()] *)
Definition storage_write : M unit :=
  modify (fun w =>
    mkLNWallet (invoices w) (preimages w) (heap w) (channels w)
      (storage w) (S (storage_writes w)) (effects w)).

(** [trigger_callback], [broadcast_transaction] and the wallet calls append
    to the effect log. *)
Definition emit (e : Effect) : M unit :=
  modify (fun w =>
    mkLNWallet (invoices w) (preimages w) (heap w) (channels w)
      (storage w) (storage_writes w) (effects w ++ [e])).

(** ** Sample data

    Small worker states and stand-ins for the collaborators, used where a
    statement is checked on a concrete input. *)
Module Examples.

Definition hash1 : bytes := [x9f; x86; xd0; x81].
Definition node_a : bytes := [x02; xaa].
Definition node_b : bytes := [x03; xbb].

Definition empty_wallet : LNWallet := mkLNWallet ∅ ∅ ∅ [] ∅ 0 [].

(** A received invoice that is already paid. *)
Definition wallet_paid : LNWallet :=
  mkLNWallet {[ bh2u hash1 := (Some 100000%Z, RECEIVED, PR_PAID) ]} ∅ ∅ [] ∅ 0 [].

(** Big-endian bytes, the layout ShortChannelID.from_components uses. *)
Fixpoint be_bytes (n : nat) (v : Z) : bytes :=
  match n with
  | O => []
  | S n' =>
      be_bytes n' (v / 256)
        ++ [default x00 (Byte.of_N (Z.to_N (v mod 256)))]
  end.

Definition from_components (block_height tx_pos output_index : Z) : bytes :=
  be_bytes 3 block_height ++ be_bytes 3 tx_pos ++ be_bytes 2 output_index.

(** The funding transaction has three confirmations, at position 1 of
    block 100. *)
Definition get_tx_height_conf (txid : string) : Z := 3.

Definition chan_opening (next_point current_point : bytes) : Channel :=
  mkChannel [x0c; x01] node_b (mkOutpoint "f00d" 0) None None "OPENING"
    (mkRemoteConfig (Some next_point) (Some current_point) 546) 3 0 0 false.

(** One OPENING channel whose remote points differ ... *)
Definition chan_fresh : Channel := chan_opening [x02; x11] [x02; x22].
Definition wallet_fresh : LNWallet :=
  mkLNWallet ∅ ∅ {[ 0%nat := chan_fresh ]} [([x0c; x01], 0%nat)] ∅ 0 [].

(** ... and one whose remote next point equals the current one. *)
Definition chan_stale : Channel := chan_opening [x02; x11] [x02; x11].
Definition wallet_stale : LNWallet :=
  mkLNWallet ∅ ∅ {[ 0%nat := chan_stale ]} [([x0c; x01], 0%nat)] ∅ 0 [].

(** Scenario S6: an OPEN channel with 200_000 sat on the remote side and an
    OPENING one. *)
Definition scid_open : bytes := from_components 100 1 0.
Definition chan_open : Channel :=
  mkChannel [x0c; x02] node_a (mkOutpoint "beef" 0) (Some scid_open) (Some scid_open)
    "OPEN" (mkRemoteConfig (Some [x02; x11]) (Some [x02; x22]) 546) 3
    0 200000000 false.
Definition wallet_s6 : LNWallet :=
  mkLNWallet ∅ ∅ {[ 0%nat := chan_open; 1%nat := chan_fresh ]}
    [([x0c; x02], 0%nat); ([x0c; x01], 1%nat)] ∅ 0 [].

(** A channel database without any entry. *)
Definition get_channel_info (scid : bytes) : option ChannelInfo := None.
Definition get_policy_for_node (scid node : bytes) : option Policy := None.
Definition get_routing_policy_for_channel (node scid : bytes) : option Policy := None.

(** An unexpired invoice over 0.001 coin for [hash1], however it is spelled. *)
Definition addr1 : LnAddr :=
  mkLnAddr hash1 (Some (1 # 1000)%Q) [Tag_d "coffee"; Tag_c 9] 1570000000 node_b.
Definition lndecode (invoice : string) : option LnAddr := Some addr1.
Definition is_expired (addr : LnAddr) : bool := false.
Definition get_min_final_cltv_expiry (addr : LnAddr) : Z := 9.
Definition get_description (addr : LnAddr) : string := "coffee".
Definition COIN : Z := 100000000.

(** A path finder that knows no path, and a shuffle that keeps the order. *)
Definition find_path_for_payment (a b : bytes) (amount_msat : Z)
    (chans : list Channel) : option (list (bytes * bytes)) := None.
Definition create_route_from_path (path : list (bytes * bytes)) (from : bytes)
    : list RouteEdge.t := [].
Definition is_route_sane_to_use (route : list RouteEdge.t) (amount_msat cltv : Z)
    : bool := true.
Definition shuffle (l : list (list (bytes * bytes * Z * Z * Z)))
    : list (list (bytes * bytes * Z * Z * Z)) := l.

(** A peer that accepts every HTLC and settles it. *)
Definition peer_connected (node : bytes) : bool := true.
Definition peer_pay (route : list RouteEdge.t) (chan : nat) (amount_msat : Z)
    (payment_hash : bytes) (cltv : Z) : M Z := ret 0%Z.
Definition await_pending_payment (scid : bytes) (htlc_id : Z) : M bool := ret true.

(** A sweep whose output is below dust, behind a CSV delay. *)
Definition dust_sweep : SweepInfo.t :=
  SweepInfo.mk "our_ctx_to_local" (Some 144%Z) None None.

End Examples.

(** ** Further data: HTLCs, peer addresses, gossip ids *)

#[global] Instance byte_countable : Countable byte :=
  inj_countable Byte.to_N Byte.of_N Byte.of_to_N.

(** lnutil.HTLCOwner *)
Inductive HTLCOwner := LOCAL | REMOTE.

#[global] Instance HTLCOwner_eq_decision : EqDecision HTLCOwner.
Proof. solve_decision. Defined.

(** lnutil.UpdateAddHtlc *)
Module UpdateAddHtlc.
Record t := mk {
  amount_msat : Z;
  payment_hash : bytes;
  cltv_expiry : Z;
  htlc_id : Z;
  timestamp : Z;
}.
End UpdateAddHtlc.

(** The dict [_add_request_coro] hands to [wallet.add_payment_request]. *)
Record PaymentRequest := mkPaymentRequest {
  req_type : Z;
  req_amount : option Z;
  req_time : Z;
  req_exp : Z;
  req_message : string;
  req_rhash : string;
  req_invoice : string;
}.

(** ** Satochip 2FA plugin (plugins/satochip_2FA/qt.py)

    [do_challenge_response] talks to the cosigner server. The server is
    rendered by the list of its answers, one per call in call order, and the
    calls and sleeps made are collected in a trace. *)
Module Satochip.

(** A value of the dict [d]. *)
Inductive Value :=
| VStr (s : string)
| VBytes (b : bytes)
| VNone.

(** What one call of the server proxy does: raise, or return a string or
    None. *)
Inductive Response :=
| Fails
| Returns (v : option string).

Inductive Action :=
| Delete (key : string)
| Put (key : string) (v : Value)
| Get (key : string)
| Sleep (seconds : Z).

(** How far the call got with the answers given: it returned with [d]
    updated, it raised, or it is still polling. *)
Inductive Outcome :=
| Done (d : gmap string Value)
| Raised (e : Exn)
| Polling.

Section Plugin.

(** [hashlib.sha256(s.encode('utf-8')).hexdigest()] and
    [base64.b64decode], None when it raises. *)
Variable sha256_hexdigest : string -> string.
Variable b64decode : string -> option bytes.

(** Truth value of a reply. *)
Definition reply_truthy (reply : option string) : bool :=
  match reply with
  | Some (String _ _) => true
  | _ => false
  end.

(** After the loop: [if reply is None: d['reply_encrypt'] = None]. *)
Definition after_loop (d : gmap string Value) (reply : option string) : gmap string Value :=
  match reply with
  | None => <["reply_encrypt" := VNone]> d
  | Some _ => d
  end.

(** The while loop; [reply] is the variable of that name. A failing
    [server.get] goes to the next iteration through [continue]. *)
Fixpoint poll (replyhash : string) (d : gmap string Value) (timeout : Z)
    (reply : option string) (trace : list Action) (responses : list Response)
    : Outcome * list Action :=
  if (timeout <=? 0)%Z then (Done (after_loop d reply), trace)
  else
    match responses with
    | [] => (Polling, trace)
    | Fails :: rest =>
        poll replyhash d timeout reply (trace ++ [Get replyhash]) rest
    | Returns r :: rest =>
        let trace := trace ++ [Get replyhash] in
        if reply_truthy r then
          match b64decode (default EmptyString r) with
          | None => (Raised (Exception "binascii.Error"), trace)
          | Some b =>
              let d := <["reply_encrypt" := VBytes b]> d in
              match rest with
              | [] => (Polling, trace)
              | Fails :: _ => (Raised (Exception "server"), trace ++ [Delete replyhash])
              | Returns _ :: _ => (Done (after_loop d r), trace ++ [Delete replyhash])
              end
          end
        else
          poll replyhash d (timeout - 10) r (trace ++ [Sleep 10]) rest
    end.

(** The three calls that purge and post the challenge; an exception of the
    server propagates. *)
Fixpoint server_calls (calls : list Action) (trace : list Action)
    (responses : list Response)
    (k : list Action -> list Response -> Outcome * list Action)
    : Outcome * list Action :=
  match calls with
  | [] => k trace responses
  | call :: calls' =>
      match responses with
      | [] => (Polling, trace)
      | Fails :: _ => (Raised (Exception "server"), trace ++ [call])
      | Returns _ :: rest => server_calls calls' (trace ++ [call]) rest k
      end
  end.

Definition do_challenge_response (d : gmap string Value) (responses : list Response)
    : Outcome * list Action :=
  match d !! "id_2FA" with
  | None => (Raised KeyError, [])
  | Some id_value =>
      match d !! "msg_encrypt" with
      | None => (Raised KeyError, [])
      | Some msg =>
          match id_value with
          | VStr id_2FA =>
              let replyhash := sha256_hexdigest id_2FA in
              server_calls [Delete id_2FA; Delete replyhash; Put id_2FA msg] [] responses
                (fun trace responses => poll replyhash d 180 None trace responses)
          | _ => (Raised AttributeError, [])
          end
      end
  end.

(** Number of sleeps in a trace. *)
Fixpoint sleeps (trace : list Action) : nat :=
  match trace with
  | [] => 0
  | Sleep _ :: t => S (sleeps t)
  | _ :: t => sleeps t
  end.

(** Number of answers, calls that did not raise, in a list of responses. *)
Fixpoint answers (responses : list Response) : nat :=
  match responses with
  | [] => 0
  | Fails :: t => answers t
  | Returns _ :: t => S (answers t)
  end.

(** Number of polls, the [server.get] calls, in a trace. *)
Fixpoint polls (trace : list Action) : nat :=
  match trace with
  | [] => 0
  | Get _ :: t => S (polls t)
  | _ :: t => polls t
  end.

End Plugin.
End Satochip.

(** ** More sample data *)
Module MoreExamples.

Import Examples.

(** A stand-in for sha256: the bytes reversed. [preimage1] is sent to
    [hash1]. *)
Definition sha256 (p : bytes) : bytes := rev p.
Definition preimage1 : bytes := [x81; xd0; x86; x9f].

(** Our OPEN channel, and an unpaid invoice we are about to pay. *)
Definition wallet_unpaid : LNWallet :=
  mkLNWallet {[ bh2u hash1 := (Some 100000%Z, SENT, PR_UNPAID) ]} ∅
    {[ 0%nat := chan_open ]} [([x0c; x02], 0%nat)] ∅ 0 [].

Definition edge_open : RouteEdge.t := RouteEdge.mk node_a scid_open 1000 1 144.
Definition edge_elsewhere : RouteEdge.t := RouteEdge.mk node_b [x00; x01] 1000 1 144.

(** A hint of two hops, from [node_a] over [node_b] to the payee. *)
Definition hint2 : list (bytes * bytes * Z * Z * Z) :=
  [(node_a, [x00; x01], 1000, 1, 144)%Z; (node_b, [x00; x02], 2000, 2, 40)%Z].

Definition is_expired_yes (addr : LnAddr) : bool := true.
Definition peer_absent (node : bytes) : bool := false.

(** Force close: the commitment transaction, the flag, a broadcast that
    goes through. *)
Definition force_close_tx (c : Channel) : Transaction := mkTransaction "c105e" [].
Definition set_force_closed (c : Channel) : Channel :=
  mkChannel (channel_id c) (node_id c) (funding_outpoint c) (short_channel_id c)
    (short_channel_id_predicted c) (state c) (config_REMOTE c)
    (funding_txn_minimum_depth c) (balance_LOCAL c) (balance_REMOTE c) true.
Definition broadcast_transaction_raises (tx : Transaction) : bool := false.

(** One received HTLC of 600_000 sat expiring at height 1000, seen in every
    view, with its preimage released; deadlines of 144 and 1 blocks. *)
Definition htlc1 : UpdateAddHtlc.t := UpdateAddHtlc.mk 600000000 hash1 1000 0 1570000000.
Definition get_latest_ctn (c : Channel) (o : HTLCOwner) : Z := 5.
Definition get_oldest_unrevoked_ctn (c : Channel) (o : HTLCOwner) : Z := 4.
Definition htlcs_by_direction (c : Channel) (sub : HTLCOwner) (dir : Direction) (ctn : Z)
    : list (Z * UpdateAddHtlc.t) := [(0%Z, htlc1)].
Definition was_htlc_preimage_released (c : Channel) (htlc_id : Z) (o : HTLCOwner) : bool := true.

(** Addresses of a node: a host name, then two IP addresses. *)
Definition is_ip_address (host : string) : bool :=
  String.eqb host "148.251.87.112" || String.eqb host "52.168.166.221".
Definition random_index (n : nat) : nat := 0.
Definition addresses : list (string * Z * Z) :=
  [("ecdsa.net", 9735, 1570000000)%Z; ("148.251.87.112", 9735, 1570000001)%Z;
   ("52.168.166.221", 9735, 1570000002)%Z].

Definition int_of_string (s : string) : option Z := Some 9735%Z.

(** Building and booking a request always works. *)
Definition lnencode (payment_hash : bytes) (amount_btc : option Q) (tags : list Tag)
    (date : Z) : Result string := Ok "lnltc1sample".
Definition lnencode_raises (payment_hash : bytes) (amount_btc : option Q) (tags : list Tag)
    (date : Z) : Result string := Raise ValueError.
Definition add_payment_request (req : PaymentRequest) : M unit := ret tt.

(** The 2FA challenge. *)
Definition challenge : gmap string Satochip.Value :=
  {[ "id_2FA" := Satochip.VStr "7d1f"; "msg_encrypt" := Satochip.VStr "c2lnbg==" ]}.
Definition sha256_hexdigest (s : string) : string := "h" +:+ s.
Definition b64decode (s : string) : option bytes := Some [x01].

End MoreExamples.

(** ** Routing and funding scenarios

    A worker with one OPEN channel to [node_a], a path finder that knows the
    way to our direct peers and no further, and a sanity test that looks at
    the route: its length, its total expiry and its fees. *)
Module Scenarios.

Import Examples.

Definition node_self : bytes := [x02; x5e].
Definition node_c : bytes := [x03; xcc].

Definition wallet_open : LNWallet :=
  mkLNWallet ∅ ∅ {[ 0%nat := chan_open ]} [([x0c; x02], 0%nat)] ∅ 0 [].

(** The path over the first OPEN channel to [dest], if we have one. *)
Fixpoint find_path_for_payment (from dest : bytes) (amount_msat : Z)
    (chans : list Channel) : option Path :=
  match chans with
  | [] => None
  | c :: rest =>
      match short_channel_id c with
      | Some scid =>
          if bool_decide (node_id c = dest) && String.eqb (state c) "OPEN"
          then Some [(dest, scid)]
          else find_path_for_payment from dest amount_msat rest
      | None => find_path_for_payment from dest amount_msat rest
      end
  end.

(** Every planned edge costs 1000 msat plus 1 ppm and 144 blocks. *)
Definition create_route_from_path (path : Path) (from : bytes) : list RouteEdge.t :=
  map (fun hop : bytes * bytes => RouteEdge.mk hop.1 hop.2 1000 1 144) path.

Fixpoint total (f : RouteEdge.t -> Z) (route : list RouteEdge.t) : Z :=
  match route with
  | [] => 0
  | e :: r => f e + total f r
  end.

(** At most 20 edges, at most 60 * 144 blocks of expiry in all, and base
    fees that do not exceed the amount sent. *)
Definition is_route_sane_to_use (route : list RouteEdge.t)
    (amount_msat min_final_cltv_expiry : Z) : bool :=
  (length route <=? 20)%nat
  && (min_final_cltv_expiry + total RouteEdge.cltv_expiry_delta route <=? 60 * 144)%Z
  && (total RouteEdge.fee_base_msat route <=? amount_msat)%Z.

(** A shuffle that reverses the hints. *)
Definition shuffle (l : list (list HintEdge)) : list (list HintEdge) := rev l.

(** Two hints from [node_a] to the payee [node_c]: one over a channel that
    asks for 9000 blocks, one over a channel that asks for 144. *)
Definition hint_far : list HintEdge := [(node_a, [x00; x07], 1000, 1, 9000)%Z].


(** The same payee with the far hint only. *)
Definition invoice_far : LnAddr :=
  mkLnAddr hash1 (Some (1 # 1000)%Q) [Tag_d "coffee"; Tag_c 9; Tag_r hint_far]
    1570000000 node_c.


(** An invoice that leaves the amount to the payer. *)
Definition invoice_open_amount : LnAddr := set_amount invoice_far None.
Definition lndecode (invoice : string) : option LnAddr := Some invoice_open_amount.




End Scenarios.

Section Worker.

(** ** Invoice and preimage store (lnworker.py, lines 999-1039 and 1083-1090) *)

(** [crypto.sha256] *)
Variable sha256 : bytes -> bytes.

Definition save_preimage (payment_hash : bytes) (preimage : bytes) : M unit :=
  if bool_decide (sha256 preimage = payment_hash) then
    modify (with_preimages (<[bh2u payment_hash := bh2u preimage]>)) ;;
    do p <- gets preimages;
    storage_put "lightning_preimages" (SV_preimages p) ;;
    storage_write
  else raise AssertionError.

(** [bfh(None)] is a TypeError, a stored value that is not hex a ValueError
    (rendered as [Exception]). *)
Definition get_preimage (payment_hash : bytes) : M bytes :=
  do p <- gets preimages;
  match p !! bh2u payment_hash with
  | None => raise TypeError
  | Some v => match bfh v with
              | Some x => ret x
              | None => raise (Exception "non-hexadecimal number found in fromhex() arg")
              end
  end.

Definition get_invoice_info (payment_hash : bytes) : M InvoiceInfo :=
  let key := bh2u payment_hash in
  do inv <- gets invoices;
  match inv !! key with
  | None => raise (UnknownPaymentHash payment_hash)
  | Some (amount, direction, status) =>
      ret (mkInvoiceInfo payment_hash amount direction status)
  end.

Definition save_invoice_info (info : InvoiceInfo) : M unit :=
  let key := bh2u (payment_hash info) in
  modify (with_invoices (<[key := (amount info, direction info, status info)]>)) ;;
  do inv <- gets invoices;
  storage_put "lightning_invoices2" (SV_invoices inv) ;;
  storage_write.

(** try / except UnknownPaymentHash *)
Definition get_invoice_status (payment_hash : bytes) : M PRStatus :=
  fun w => match get_invoice_info payment_hash w with
           | (Ok info, w') => (Ok (status info), w')
           | (Raise (UnknownPaymentHash _), w') => (Ok PR_UNKNOWN, w')
           | (Raise e, w') => (Raise e, w')
           end.

Definition set_invoice_status (payment_hash : bytes) (status0 : PRStatus) : M unit :=
  fun w => match get_invoice_info payment_hash w with
           | (Raise (UnknownPaymentHash _), w') => (Ok tt, w')
           | (Raise e, w') => (Raise e, w')
           | (Ok info, w') =>
               (let info := replace_status info status0 in
                save_invoice_info info ;;
                if bool_decide (direction info = RECEIVED) && bool_decide (status info = PR_PAID)
                then emit (Callback_payment_received (bh2u payment_hash) PR_PAID)
                else ret tt) w'
           end.

(** [del self.invoices[k]] raises KeyError on a missing key; the handler
    returns. *)
Definition delete_invoice (payment_hash_hex : string) : M unit :=
  do inv <- gets invoices;
  match inv !! payment_hash_hex with
  | None => ret tt
  | Some _ =>
      modify (with_invoices (delete payment_hash_hex)) ;;
      do inv' <- gets invoices;
      storage_put "lightning_invoices" (SV_invoices inv') ;;
      storage_write
  end.

(** Calls on the store, and the states they lead to from a store without
    preimages. *)
Inductive StoreOp :=
| Op_save_preimage (payment_hash preimage : bytes)
| Op_save_invoice_info (info : InvoiceInfo)
| Op_set_invoice_status (payment_hash : bytes) (st : PRStatus)
| Op_delete_invoice (payment_hash_hex : string).

Definition run_op (op : StoreOp) : M unit :=
  match op with
  | Op_save_preimage h p => save_preimage h p
  | Op_save_invoice_info i => save_invoice_info i
  | Op_set_invoice_status h s => set_invoice_status h s
  | Op_delete_invoice k => delete_invoice k
  end.

Inductive reachable : LNWallet -> Prop :=
| reach_init w : preimages w = ∅ -> reachable w
| reach_step w op : reachable w -> reachable (run_op op w).2.

(** Whether the call appended a payment_received notification. *)
Definition payment_received_fired (payment_hash : bytes) (st : PRStatus) (w : LNWallet) : bool :=
  bool_decide (effects (set_invoice_status payment_hash st w).2
               = effects w ++ [Callback_payment_received (bh2u payment_hash) PR_PAID]).


(** ** Channel store (lines 574-607) *)

(** lnwatcher: [get_tx_height(txid).conf] and [get_txpos(txid)]. *)
Variable get_tx_height_conf : string -> Z.
Variable get_txpos : string -> Z * Z.
(** [ShortChannelID.from_components] of lnutil. *)
Variable from_components : Z -> Z -> Z -> bytes.

(** Reading an attribute of a channel object. An address that holds no
    object has no counterpart in Python; the model raises there. *)
Definition deref (chan : nat) : M Channel :=
  fun w => match heap w !! chan with
           | Some c => (Ok c, w)
           | None => (Raise (Exception "no object at this address"), w)
           end.

(** [d[k] = v] on an insertion-ordered dict. *)
Fixpoint dict_set (k : bytes) (v : nat) (d : list (bytes * nat)) : list (bytes * nat) :=
  match d with
  | [] => [(k, v)]
  | (k', v') :: r =>
      if decide (k' = k) then (k, v) :: r else (k', v') :: dict_set k v r
  end.

(** [list(self.channels.values())], read through the heap. *)
Definition channel_values (w : LNWallet) : list Channel :=
  omap (fun kv => heap w !! kv.2) (channels w).

(** [x.serialize()] is rendered as the snapshot of the object's fields. *)
Definition save_channels : M unit :=
  do dumped <- gets channel_values;
  storage_put "channels" (SV_channels dumped) ;;
  storage_write.

Definition save_channel (chan : nat) : M unit :=
  do c <- deref chan;
  if bool_decide (next_per_commitment_point (config_REMOTE c)
                  = current_per_commitment_point (config_REMOTE c))
  then raise (Exception "Tried to save channel with next_point == current_point, this should not happen")
  else
    modify (with_channels (dict_set (channel_id c) chan)) ;;
    save_channels ;;
    emit (Callback_channel chan).

Definition on_channels_updated : M unit := emit Callback_channels.



(** ** Routing hints for an invoice (lines 1041-1081) *)

(** channel_db: [get_channel_info] and [get_policy_for_node]. *)
Variable get_channel_info : bytes -> option ChannelInfo.
Variable get_policy_for_node : bytes -> bytes -> option Policy.

(** Python truth value of an optional int. *)
Definition truthy (x : option Z) : bool :=
  match x with
  | None => false
  | Some v => negb (v =? 0)%Z
  end.

Definition hint_fields (chan : Channel) (chan_id : bytes) : Z * Z * Z :=
  let fallback := (0, 0, 1)%Z in
  match get_channel_info chan_id with
  | Some channel_info =>
      match get_policy_for_node (info_short_channel_id channel_info) (node_id chan) with
      | Some policy =>
          (fee_base_msat policy, fee_proportional_millionths policy, cltv_expiry_delta policy)
      | None => fallback
      end
  | None => fallback
  end.

Fixpoint routing_hints_loop (amount_sat : option Z) (chans : list Channel)
    (routing_hints : list Tag) : Result (list Tag) :=
  match chans with
  | [] => Ok routing_hints
  | chan :: rest =>
      if negb (String.eqb (state chan) "OPEN") then
        routing_hints_loop amount_sat rest routing_hints
      else if truthy amount_sat
              && (balance_REMOTE chan / 1000 <? default 0 amount_sat)%Z then
        routing_hints_loop amount_sat rest routing_hints
      else
        match short_channel_id chan with
        | None => Raise AssertionError
        | Some chan_id =>
            let '(base, prop, delta) := hint_fields chan chan_id in
            routing_hints_loop amount_sat rest
              (routing_hints ++ [Tag_r [(node_id chan, chan_id, base, prop, delta)]])
        end
  end.

Definition _calc_routing_hints_for_invoice (amount_sat : option Z) : M (list Tag) :=
  do chans <- gets channel_values;
  match routing_hints_loop amount_sat chans [] with
  | Ok hints => ret hints
  | Raise e => raise e
  end.

(** The hints as section 4.5 of the specification words them: one 'r' tag
    per live OPEN channel with enough remote balance, with the stored
    policy or else (0, 0, 1). *)
Definition spec_hint_eligible (amount_sat : option Z) (chan : Channel) : bool :=
  String.eqb (state chan) "OPEN"
  && (if truthy amount_sat
      then (default 0 amount_sat <=? balance_REMOTE chan / 1000)%Z
      else true).

Definition spec_hint (chan : Channel) : option Tag :=
  match short_channel_id chan with
  | None => None
  | Some scid =>
      let fees :=
        match get_channel_info scid with
        | None => (0, 0, 1)%Z
        | Some ci => match get_policy_for_node (info_short_channel_id ci) (node_id chan) with
                     | None => (0, 0, 1)%Z
                     | Some p => (fee_base_msat p, fee_proportional_millionths p, cltv_expiry_delta p)
                     end
        end in
      Some (Tag_r [(node_id chan, scid, fees.1.1, fees.1.2, fees.2)])
  end.

Definition spec_routing_hints (amount_sat : option Z) (chans : list Channel) : list Tag :=
  omap spec_hint (filter (fun c => spec_hint_eligible amount_sat c = true) chans).

(** ** On-chain sweeps: try_redeem (lines 667-702) *)

(** [self.network.get_local_height()] *)
Variable get_local_height : Z.

(** [s.split(sep)] for a one-character separator. *)
Fixpoint split_on (sep : ascii) (s : string) : list string :=
  match s with
  | EmptyString => [EmptyString]
  | String c r =>
      if Ascii.eqb c sep then EmptyString :: split_on sep r
      else match split_on sep r with
           | h :: t => String c h :: t
           | [] => [String c EmptyString]
           end
  end.

(** The two try/except blocks swallow what broadcast_transaction and
    add_future_tx raise, so each call is recorded and the coroutine goes on. *)
Definition try_redeem (prevout : string) (sweep_info : SweepInfo.t) : M unit :=
  let name := SweepInfo.name sweep_info in
  match split_on ":" prevout with
  | [prev_txid; prev_index] =>
      let broadcast := true in
      let remaining : option Z := None in
      let '(broadcast, remaining) :=
        if truthy (SweepInfo.cltv_expiry sweep_info) then
          let local_height := get_local_height in
          let remaining := (default 0 (SweepInfo.cltv_expiry sweep_info) - local_height)%Z in
          if (0 <? remaining)%Z then (false, Some remaining) else (broadcast, Some remaining)
        else (broadcast, remaining) in
      let '(broadcast, remaining) :=
        if truthy (SweepInfo.csv_delay sweep_info) then
          let prev_height_conf := get_tx_height_conf prev_txid in
          let remaining := (default 0 (SweepInfo.csv_delay sweep_info) - prev_height_conf)%Z in
          if (0 <? remaining)%Z then (false, Some remaining) else (broadcast, Some remaining)
        else (broadcast, remaining) in
      let tx := SweepInfo.gen_tx sweep_info in
      match tx with
      | None => raise AttributeError
      | Some tx =>
          emit (Wallet_set_label (tx_txid tx) name) ;;
          if broadcast then emit (Broadcast tx)
          else emit (Wallet_add_future_tx tx remaining)
      end
  | _ => raise ValueError
  end.

(** ** Payments (lines 842-955) *)

(** [int(d)] on a Decimal truncates towards zero. *)
Definition int_of_decimal (d : Q) : Z := Z.quot (Qnum d) (Z.pos (Qden d)).

(** Truth value of an optional Decimal. *)
Definition decimal_truthy (d : option Q) : bool :=
  match d with
  | None => false
  | Some q => negb (Qnum q =? 0)%Z
  end.

(** lnaddr.lndecode with the network's prefix; None when it raises. *)
Variable lndecode : string -> option LnAddr.
Variable is_expired : LnAddr -> bool.
Variable get_min_final_cltv_expiry : LnAddr -> Z.
Variable get_description : LnAddr -> string.
(** bitcoin.COIN *)
Variable COIN : Z.
(** lnutil.NUM_MAX_EDGES_IN_PAYMENT_PATH *)
Variable NUM_MAX_EDGES_IN_PAYMENT_PATH : nat.

Definition _check_invoice (invoice : string) (amount_sat : option Z) : Result LnAddr :=
  match lndecode invoice with
  | None => Raise LnDecodeException
  | Some addr =>
      if is_expired addr then Raise (InvoiceError "This invoice has expired")
      else
        let addr :=
          if truthy amount_sat
          then set_amount addr (Some (inject_Z (default 0%Z amount_sat) / inject_Z COIN)%Q)
          else addr in
        match addr_amount addr with
        | None => Raise (InvoiceError "Missing amount")
        | Some _ =>
            if (60 * 144 <? get_min_final_cltv_expiry addr)%Z
            then Raise (InvoiceError "Invoice wants us to risk locking funds for unreasonably long.")
            else Ok addr
        end
  end.

(** The path finder (lnrouter.LNPathFinder) and the channel database. *)
Variable find_path_for_payment : bytes -> bytes -> Z -> list Channel -> option Path.
Variable create_route_from_path : Path -> bytes -> list RouteEdge.t.
Variable is_route_sane_to_use : list RouteEdge.t -> Z -> Z -> bool.
Variable get_routing_policy_for_channel : bytes -> bytes -> option Policy.
(** [self.node_keypair.pubkey] *)
Variable node_pubkey : bytes.
(** The order [random.shuffle] leaves the hints in. *)
Variable shuffle : list (list HintEdge) -> list (list HintEdge).

(** [if not path]: None and the empty sequence are both false. *)
Definition path_or_none (p : option Path) : option Path :=
  match p with
  | Some (e :: r) => Some (e :: r)
  | _ => None
  end.

(** [filter(lambda x: x[0] == 'r', tags)] then [x[1]] *)
Definition r_tags_of (tgs : list Tag) : list (list HintEdge) :=
  omap (fun t => match t with Tag_r r => Some r | _ => None end) tgs.

(** The inner loop over [zip(private_route_nodes, private_route_rest)]. *)
Fixpoint append_private_edges (prev_node_id : bytes)
    (hops : list (bytes * (bytes * Z * Z * Z))) (route : list RouteEdge.t) : list RouteEdge.t :=
  match hops with
  | [] => route
  | (node_pubkey0, (short_channel_id0, fee_base_msat0, fee_proportional_millionths0, cltv_expiry_delta0)) :: rest =>
      let '(fb, fp, cd) :=
        match get_routing_policy_for_channel prev_node_id short_channel_id0 with
        | Some channel_policy =>
            (fee_base_msat channel_policy, fee_proportional_millionths channel_policy,
             cltv_expiry_delta channel_policy)
        | None => (fee_base_msat0, fee_proportional_millionths0, cltv_expiry_delta0)
        end in
      append_private_edges node_pubkey0 rest
        (route ++ [RouteEdge.mk node_pubkey0 short_channel_id0 fb fp cd])
  end.

(** The route built for one hint once a path to its border node exists. *)
Definition route_through_hint (invoice_pubkey : bytes) (private_route : list HintEdge)
    (path : Path) : list RouteEdge.t :=
  let border_node_pubkey := match private_route with e :: _ => e.1.1.1.1 | [] => [] end in
  let route := create_route_from_path path node_pubkey in
  let private_route_nodes := tail (map (fun edge : HintEdge => edge.1.1.1.1) private_route) ++ [invoice_pubkey] in
  let private_route_rest := map (fun edge : HintEdge => (edge.1.1.1.2, edge.1.1.2, edge.1.2, edge.2)) private_route in
  append_private_edges border_node_pubkey (zip private_route_nodes private_route_rest) route.

(** The loop over the shuffled hints; [route] is the loop-carried variable
    and the result is its value when the loop ends. *)
Fixpoint hint_loop (amount_msat min_final_cltv_expiry : Z) (invoice_pubkey : bytes)
    (chans : list Channel) (route : option (list RouteEdge.t))
    (r_tags : list (list HintEdge)) : option (list RouteEdge.t) :=
  match r_tags with
  | [] => route
  | private_route :: rest =>
      let continue := hint_loop amount_msat min_final_cltv_expiry invoice_pubkey chans in
      if (length private_route =? 0)%nat then continue route rest
      else if (NUM_MAX_EDGES_IN_PAYMENT_PATH <? length private_route)%nat then continue route rest
      else
        let border_node_pubkey := match private_route with e :: _ => e.1.1.1.1 | [] => [] end in
        match path_or_none (find_path_for_payment node_pubkey border_node_pubkey amount_msat chans) with
        | None => continue route rest
        | Some path =>
            let route := route_through_hint invoice_pubkey private_route path in
            if negb (is_route_sane_to_use route amount_msat min_final_cltv_expiry)
            then continue None rest
            else Some route
        end
  end.

Definition _create_route_from_invoice (decoded_invoice : LnAddr) : M (list RouteEdge.t) :=
  match addr_amount decoded_invoice with
  | None => raise TypeError
  | Some amount0 =>
      let amount_msat := int_of_decimal (amount0 * inject_Z COIN * inject_Z 1000)%Q in
      let invoice_pubkey := pubkey decoded_invoice in
      let r_tags := shuffle (r_tags_of (tags decoded_invoice)) in
      do chans <- gets channel_values;
      match hint_loop amount_msat (get_min_final_cltv_expiry decoded_invoice)
              invoice_pubkey chans None r_tags with
      | Some route => ret route
      | None =>
          match path_or_none (find_path_for_payment node_pubkey invoice_pubkey amount_msat chans) with
          | None => raise (PaymentFailure "No path found")
          | Some path =>
              let route := create_route_from_path path node_pubkey in
              if negb (is_route_sane_to_use route amount_msat
                         (get_min_final_cltv_expiry decoded_invoice))
              then raise (PaymentFailure "No path found")
              else ret route
          end
      end
  end.

(** The peer side of a payment: membership in [self.peers], [Peer.pay]
    (which returns the added HTLC, here its id) and the future awaited in
    [self.pending_payments]. Both calls may change the worker. *)
Variable peer_connected : bytes -> bool.
Variable peer_pay : list RouteEdge.t -> nat -> Z -> bytes -> Z -> M Z.
Variable await_pending_payment : bytes -> Z -> M bool.

Definition lift {A} (r : Result A) : M A := fun w => (r, w).

(** The loop of get_channel_by_short_id over [self.channels.values()]. *)
Fixpoint find_by_short_id (h : gmap nat Channel) (scid : bytes)
    (chans : list (bytes * nat)) : option nat :=
  match chans with
  | [] => None
  | (_, chan) :: rest =>
      match h !! chan with
      | Some c =>
          if bool_decide (short_channel_id c = Some scid) then Some chan
          else find_by_short_id h scid rest
      | None => find_by_short_id h scid rest
      end
  end.

(** The address of the first channel whose short_channel_id equals the
    argument, None when the loop falls through. *)
Definition get_channel_by_short_id (scid : bytes) : M (option nat) :=
  do chans <- gets channels;
  do h <- gets heap;
  ret (find_by_short_id h scid chans).

Definition _pay_to_route (route : list RouteEdge.t) (addr : LnAddr) (invoice : string) : M bool :=
  match route with
  | [] => raise IndexError
  | edge0 :: _ =>
      let short_channel_id0 := RouteEdge.short_channel_id edge0 in
      do chan <- get_channel_by_short_id short_channel_id0;
      match chan with
      | None => raise (Exception "PathFinder returned path with short_channel_id that is not in channel list")
      | Some chan =>
          set_invoice_status (paymenthash addr) PR_INFLIGHT ;;
          if negb (peer_connected (RouteEdge.node_id edge0)) then raise KeyError
          else match addr_amount addr with
               | None => raise TypeError
               | Some amount0 =>
                   do htlc_id <- peer_pay route chan
                                   (int_of_decimal (amount0 * inject_Z COIN * inject_Z 1000)%Q)
                                   (paymenthash addr) (get_min_final_cltv_expiry addr);
                   emit (Callback_htlc_added htlc_id (paymenthash addr)) ;;
                   do success <- await_pending_payment short_channel_id0 htlc_id;
                   set_invoice_status (paymenthash addr) (if success then PR_PAID else PR_UNPAID) ;;
                   ret success
               end
      end
  end.

(** [for i in range(attempts)], with [todo] iterations left. *)
Fixpoint pay_attempts (key : string) (lnaddr : LnAddr) (invoice : string)
    (i todo : nat) : M bool :=
  match todo with
  | O => ret false
  | S todo' =>
      do route <- _create_route_from_invoice lnaddr;
      match route with
      | [] => raise IndexError
      | edge0 :: _ =>
          do chan <- get_channel_by_short_id (RouteEdge.short_channel_id edge0);
          match chan with
          | None => raise (Exception "Got route with unknown first channel")
          | Some _ =>
              emit (Callback_payment_status key "progress" (Some i)) ;;
              do ok <- _pay_to_route route lnaddr invoice;
              if ok then ret true else pay_attempts key lnaddr invoice (S i) todo'
          end
      end
  end.

Definition _pay (invoice : string) (amount_sat : option Z) (attempts : nat) : M bool :=
  match lndecode invoice with
  | None => raise LnDecodeException
  | Some lnaddr =>
      let key := bh2u (paymenthash lnaddr) in
      let amount0 :=
        if decimal_truthy (addr_amount lnaddr)
        then Some (int_of_decimal (default 0%Q (addr_amount lnaddr) * inject_Z COIN)%Q)
        else None in
      do status0 <- get_invoice_status (paymenthash lnaddr);
      if bool_decide (status0 = PR_PAID)
      then raise (PaymentFailure "This invoice has been paid already")
      else
        let info := mkInvoiceInfo (paymenthash lnaddr) amount0 SENT PR_UNPAID in
        save_invoice_info info ;;
        do _ <- lift (_check_invoice invoice amount_sat);
        emit (Wallet_set_label key (get_description lnaddr)) ;;
        pay_attempts key lnaddr invoice 0 attempts
  end.

(** ** Further methods of LNWallet *)

(** [d[k]] on the channels dict, None for the KeyError. *)
Fixpoint dict_get (k : bytes) (d : list (bytes * nat)) : option nat :=
  match d with
  | [] => None
  | (k', v) :: r => if decide (k' = k) then Some v else dict_get k r
  end.

(** The hints the loop of _create_route_from_invoice does not skip on
    their length. *)
Definition usable_hint (private_route : list HintEdge) : Prop :=
  (1 <= length private_route <= NUM_MAX_EDGES_IN_PAYMENT_PATH)%nat.

(** The edge appended for one hop of a hint towards [dest]: the hint's own
    fee and expiry unless the channel database holds a policy for the hop. *)
Definition private_edge (hop : HintEdge) (dest : bytes) : RouteEdge.t :=
  let '(node, scid, fee_base, fee_prop, delta) := hop in
  match get_routing_policy_for_channel node scid with
  | Some p =>
      RouteEdge.mk dest scid (fee_base_msat p) (fee_proportional_millionths p)
        (cltv_expiry_delta p)
  | None => RouteEdge.mk dest scid fee_base fee_prop delta
  end.

#[local] Instance usable_hint_dec (private_route : list HintEdge) :
  Decision (usable_hint private_route).
Proof. unfold usable_hint. apply _. Defined.

(** Number of occurrences of a character. *)
Fixpoint count_char (c : ascii) (s : string) : nat :=
  match s with
  | EmptyString => 0
  | String a r => (if Ascii.eqb a c then 1 else 0) + count_char c r
  end.

(** *** force_close_channel (lines 1117-1128) *)

(** lnchannel: [chan.force_close_tx()] and the object after
    [chan.set_force_closed()]; whether [network.broadcast_transaction]
    raises for a transaction. *)
Variable force_close_tx : Channel -> Transaction.
Variable set_force_closed : Channel -> Channel.
Variable broadcast_transaction_raises : Transaction -> bool.

(** The result is the txid, or None when the broadcast raised. *)
Definition force_close_channel (chan_id : bytes) : M (option string) :=
  do chans <- gets channels;
  match dict_get chan_id chans with
  | None => raise KeyError
  | Some chan =>
      do c <- deref chan;
      let tx := force_close_tx c in
      modify (with_heap (<[chan := set_force_closed c]>)) ;;
      save_channel chan ;;
      on_channels_updated ;;
      emit (Broadcast tx) ;;
      if broadcast_transaction_raises tx then ret None
      else ret (Some (tx_txid tx))
  end.

(** *** should_channel_be_closed_due_to_expiring_htlcs (lines 704-735) *)

(** lnchannel and its HTLC manager: the commitment numbers, the HTLCs of a
    commitment by direction (the [items()] of the dict htlc_id -> htlc),
    and whether the preimage of an HTLC was released; the two deadlines of
    lnutil. *)
Variable get_latest_ctn : Channel -> HTLCOwner -> Z.
Variable get_oldest_unrevoked_ctn : Channel -> HTLCOwner -> Z.
Variable htlcs_by_direction :
  Channel -> HTLCOwner -> Direction -> Z -> list (Z * UpdateAddHtlc.t).
Variable was_htlc_preimage_released : Channel -> Z -> HTLCOwner -> bool.
Variable NBLOCK_DEADLINE_BEFORE_EXPIRY_FOR_RECEIVED_HTLCS : Z.
Variable NBLOCK_DEADLINE_AFTER_EXPIRY_FOR_OFFERED_HTLCS : Z.

(** [d[k] = v] on an insertion-ordered dict with any key type. *)
Fixpoint item_set {K V : Type} `{EqDecision K} (k : K) (v : V) (d : list (K * V))
    : list (K * V) :=
  match d with
  | [] => [(k, v)]
  | (k', v') :: r =>
      if decide (k' = k) then (k, v) :: r else (k', v') :: item_set k v r
  end.

(** The dict the function fills, keyed by (direction, htlc_id). *)
Definition HtlcDict : Type := list ((Direction * Z) * UpdateAddHtlc.t).

(** The inner loop over the HTLCs of one commitment, first half: received
    HTLCs whose preimage is out and whose expiry is close. *)
Definition reclaim_received (chan : Channel) (local_height : Z)
    (d : HtlcDict) (items : list (Z * UpdateAddHtlc.t)) : HtlcDict :=
  fold_left
    (fun d item =>
       let '(htlc_id, htlc) := item in
       if negb (was_htlc_preimage_released chan htlc_id REMOTE) then d
       else if (local_height <?
                  UpdateAddHtlc.cltv_expiry htlc
                  - NBLOCK_DEADLINE_BEFORE_EXPIRY_FOR_RECEIVED_HTLCS)%Z then d
       else item_set (RECEIVED, htlc_id) htlc d)
    items d.

(** Second half: offered HTLCs that expired, grace period included. *)
Definition reclaim_offered (local_height : Z)
    (d : HtlcDict) (items : list (Z * UpdateAddHtlc.t)) : HtlcDict :=
  fold_left
    (fun d item =>
       let '(htlc_id, htlc) := item in
       if (local_height <?
             UpdateAddHtlc.cltv_expiry htlc
             + NBLOCK_DEADLINE_AFTER_EXPIRY_FOR_OFFERED_HTLCS)%Z then d
       else item_set (SENT, htlc_id) htlc d)
    items d.

Definition received_views (chan : Channel) : list (HTLCOwner * Direction * Z) :=
  [(LOCAL, RECEIVED, get_latest_ctn chan LOCAL);
   (REMOTE, SENT, get_oldest_unrevoked_ctn chan LOCAL);
   (REMOTE, SENT, get_latest_ctn chan LOCAL)].

Definition offered_views (chan : Channel) : list (HTLCOwner * Direction * Z) :=
  [(LOCAL, SENT, get_latest_ctn chan LOCAL);
   (REMOTE, RECEIVED, get_oldest_unrevoked_ctn chan LOCAL);
   (REMOTE, RECEIVED, get_latest_ctn chan LOCAL)].

Definition htlcs_we_could_reclaim (chan : Channel) : HtlcDict :=
  let local_height := get_local_height in
  let d : HtlcDict := [] in
  let d :=
    fold_left
      (fun d view =>
         let '(sub, dir, ctn) := view in
         reclaim_received chan local_height d (htlcs_by_direction chan sub dir ctn))
      (received_views chan) d in
  fold_left
    (fun d view =>
       let '(sub, dir, ctn) := view in
       reclaim_offered local_height d (htlcs_by_direction chan sub dir ctn))
    (offered_views chan) d.

Definition total_value_sat (d : HtlcDict) : Z :=
  foldr Z.add 0%Z (map (fun kv => (UpdateAddHtlc.amount_msat kv.2 / 1000)%Z) d).

Definition should_channel_be_closed_due_to_expiring_htlcs (chan : Channel) : bool :=
  let d := htlcs_we_could_reclaim chan in
  let num_htlcs := Z.of_nat (length d) in
  let min_value_worth_closing_channel_over_sat :=
    Z.max (num_htlcs * 10 * dust_limit_sat (config_REMOTE chan)) 500000 in
  (min_value_worth_closing_channel_over_sat <? total_value_sat d)%Z.

(** *** choose_preferred_address (lines 246-256) *)

(** util.is_ip_address, and the index [random.choice] picks in a sequence
    of the given length. *)
Variable is_ip_address : string -> bool.
Variable random_index : nat -> nat.

(** An entry of the address list: (host, port, timestamp). *)
Definition NodeAddress : Type := string * Z * Z.

Fixpoint first_ip_address (addr_list : list NodeAddress) : option NodeAddress :=
  match addr_list with
  | [] => None
  | (host, port, timestamp) :: rest =>
      if is_ip_address host then Some (host, port, timestamp)
      else first_ip_address rest
  end.

Definition choose_preferred_address (addr_list : list NodeAddress) : Result NodeAddress :=
  if (length addr_list <? 1)%nat then Raise AssertionError
  else
    match first_ip_address addr_list with
    | Some a => Ok a
    | None =>
        match addr_list !! random_index (length addr_list) with
        | Some choice => Ok choice
        | None => Raise IndexError
        end
    end.

(** *** LNGossip: unknown channel ids (lines 294-303) *)

(** [channel_db.get_channel_ids()] *)
Variable get_channel_ids : list bytes.

(** Both methods act on the attribute [unknown_ids] alone; the set is
    passed in and out. [list(s)] is rendered by [elements]. *)
Definition add_new_ids (ids : list bytes) (unknown_ids : gset bytes) : gset bytes :=
  let known := get_channel_ids in
  let new : gset bytes := list_to_set ids ∖ list_to_set known in
  unknown_ids ∪ new.

Definition get_ids_to_query (unknown_ids : gset bytes) : list bytes * gset bytes :=
  let N := 500%nat in
  let l := elements unknown_ids in
  (take N l, list_to_set (drop N l)).

(** *** maybe_listen: the listen address (lines 109-126) *)

(** [sep.join(parts)] *)
Fixpoint join (sep : string) (parts : list string) : string :=
  match parts with
  | [] => EmptyString
  | [p] => p
  | p :: rest => p +:+ sep +:+ join sep rest
  end.

(** [s.rsplit(':', 2)]: at most two splits, taken from the right. *)
Definition rsplit2 (s : string) : list string :=
  let parts := split_on ":" s in
  let n := length parts in
  if (n <=? 3)%nat then parts
  else join ":" (take (n - 2) parts) :: drop (n - 2) parts.

(** [s[1:-1]] *)
Definition strip_ends (s : string) : string :=
  match s with
  | EmptyString => EmptyString
  | String _ r => String.substring 0 (String.length r - 1) r
  end.

(** [int(port)], None when it raises ValueError. *)
Variable int_of_string : string -> option Z.

(** The part of maybe_listen before the server is started: the result is
    the (addr, port) given to [asyncio.start_server], or None when
    lightning_listen is not set. *)
Definition maybe_listen (listen_addr : option string) : Result (option (string * Z)) :=
  match listen_addr with
  | None => Ok None
  | Some EmptyString => Ok None
  | Some listen_addr =>
      match rsplit2 listen_addr with
      | [addr; port] =>
          match addr with
          | EmptyString => Raise IndexError
          | String c _ =>
              let addr := if Ascii.eqb c "[" then strip_ends addr else addr in
              match int_of_string port with
              | Some p => Ok (Some (addr, p))
              | None => Raise ValueError
              end
          end
      | _ => Raise ValueError
      end
  end.

(** An entry of the dict is due: a received HTLC with its preimage released
    and its expiry within the deadline, or an offered HTLC past its expiry
    and grace period. *)
Definition htlc_due (chan : Channel) (key : Direction * Z) (htlc : UpdateAddHtlc.t) : Prop :=
  match key.1 with
  | RECEIVED =>
      was_htlc_preimage_released chan key.2 REMOTE = true
      /\ (UpdateAddHtlc.cltv_expiry htlc - NBLOCK_DEADLINE_BEFORE_EXPIRY_FOR_RECEIVED_HTLCS
          <= get_local_height)%Z
  | SENT =>
      (UpdateAddHtlc.cltv_expiry htlc + NBLOCK_DEADLINE_AFTER_EXPIRY_FOR_OFFERED_HTLCS
       <= get_local_height)%Z
  end.

(** *** _add_request_coro (lines 965-997) *)

(** [int(time.time())], the 32 bytes drawn by [os.urandom], lnaddr.lnencode
    applied to the invoice built from (payment hash, amount, tags, date) and
    signed with the node key (it may raise), the constants of lnutil and
    util, and the wallet's own [add_payment_request]. *)
Variable now : Z.
Variable urandom32 : bytes.
Variable lnencode : bytes -> option Q -> list Tag -> Z -> Result string.
Variable MIN_FINAL_CLTV_EXPIRY_FOR_INVOICE : Z.
Variable PR_TYPE_LN : Z.
Variable add_payment_request : PaymentRequest -> M unit.

Definition _add_request_coro (amount_sat : option Z) (message : string) (expiry : Z)
    : M string :=
  let timestamp := now in
  do routing_hints <- _calc_routing_hints_for_invoice amount_sat;
  let payment_preimage := urandom32 in
  let payment_hash := sha256 payment_preimage in
  let info := mkInvoiceInfo payment_hash amount_sat RECEIVED PR_UNPAID in
  let amount_btc :=
    if truthy amount_sat
    then Some (inject_Z (default 0%Z amount_sat) / inject_Z COIN)%Q
    else None in
  do invoice <- lift (lnencode payment_hash amount_btc
                        ([Tag_d message; Tag_c MIN_FINAL_CLTV_EXPIRY_FOR_INVOICE; Tag_x expiry]
                         ++ routing_hints)
                        timestamp);
  let key := bh2u payment_hash in
  let req := mkPaymentRequest PR_TYPE_LN amount_sat timestamp expiry message key invoice in
  save_preimage payment_hash payment_preimage ;;
  save_invoice_info info ;;
  add_payment_request req ;;
  emit (Wallet_set_label key message) ;;
  ret key.

(** ** Predicates used in the statements *)

(** Every stored pair is the hex form of a hash and one of its preimages. *)
Definition preimages_consistent (w : LNWallet) : Prop :=
  forall k v, preimages w !! k = Some v ->
    exists h p, k = bh2u h /\ v = bh2u p /\ sha256 p = h.






(** * Properties *)

(** ** Hex encoding *)

Lemma byte_of_hex_digits (b : byte) :
  byte_of_hex (hexdigit (Byte.to_N b / 16)) (hexdigit (Byte.to_N b mod 16)) = Some b.
Proof. destruct b; vm_compute; reflexivity. Qed.

Lemma bfh_bh2u (x : bytes) : bfh (bh2u x) = Some x.
Proof.
  induction x as [|b r IH]; [reflexivity|].
  cbn [bh2u bfh]. rewrite byte_of_hex_digits, IH. reflexivity.
Qed.

Lemma bh2u_inj (x y : bytes) : bh2u x = bh2u y -> x = y.
Proof.
  intros E. apply (f_equal bfh) in E. rewrite !bfh_bh2u in E. congruence.
Qed.

(** ** Invoice and preimage store *)

Lemma save_preimage_rejects (w : LNWallet) (h p : bytes) :
  sha256 p <> h -> save_preimage h p w = (Raise AssertionError, w).
Proof.
  intros Hne. unfold save_preimage.
  rewrite bool_decide_eq_false_2 by assumption. reflexivity.
Qed.

Lemma save_preimage_accepts (w : LNWallet) (h p : bytes) :
  sha256 p = h ->
  exists w', save_preimage h p w = (Ok tt, w')
             /\ preimages w' = <[bh2u h := bh2u p]> (preimages w).
Proof.
  intros He. unfold save_preimage.
  rewrite bool_decide_eq_true_2 by assumption.
  eexists. split; reflexivity.
Qed.

Lemma save_invoice_info_preimages (info : InvoiceInfo) (w : LNWallet) :
  preimages (save_invoice_info info w).2 = preimages w.
Proof. reflexivity. Qed.

Lemma set_invoice_status_preimages (h : bytes) (st : PRStatus) (w : LNWallet) :
  preimages (set_invoice_status h st w).2 = preimages w.
Proof.
  unfold set_invoice_status, get_invoice_info, bind, gets. cbn.
  destruct (invoices w !! bh2u h) as [[[a d] s]|]; cbn; [|reflexivity].
  destruct (bool_decide (d = RECEIVED) && bool_decide (st = PR_PAID)); reflexivity.
Qed.

Lemma delete_invoice_preimages (k : string) (w : LNWallet) :
  preimages (delete_invoice k w).2 = preimages w.
Proof.
  unfold delete_invoice, bind, gets. cbn.
  destruct (invoices w !! k); reflexivity.
Qed.

Lemma run_op_consistent (op : StoreOp) (w : LNWallet) :
  preimages_consistent w -> preimages_consistent (run_op op w).2.
Proof.
  intros Hw. destruct op as [h p|info|h st|hex]; cbn [run_op].
  - destruct (decide (sha256 p = h)) as [He|Hne].
    + destruct (save_preimage_accepts w h p He) as (w' & -> & Hp).
      intros k v. cbn. rewrite Hp. intros Hkv.
      destruct (decide (bh2u h = k)) as [<-|Hk].
      * rewrite lookup_insert_eq in Hkv. exists h, p. split; [done|]. split; congruence.
      * rewrite lookup_insert_ne in Hkv by done. by apply Hw.
    + by rewrite save_preimage_rejects.
  - intros k v. rewrite save_invoice_info_preimages. apply Hw.
  - intros k v. rewrite set_invoice_status_preimages. apply Hw.
  - intros k v. rewrite delete_invoice_preimages. apply Hw.
Qed.

Lemma reachable_consistent (w : LNWallet) : reachable w -> preimages_consistent w.
Proof.
  induction 1 as [w Hempty|w op _ IH].
  - intros k v. rewrite Hempty, lookup_empty. discriminate.
  - by apply run_op_consistent.
Qed.

(** C3. The preimage store only holds matching pairs: [save_preimage]
    raises AssertionError and leaves the worker as it was unless
    [sha256 preimage = payment_hash]; in every state reached from an empty
    store each stored pair is the hex form of some (hash, preimage) with
    [sha256 preimage = hash]; and what [get_preimage] returns for a hash
    there is a preimage of that hash. *)
Theorem preimage_store_integrity :
  (forall w h p, sha256 p <> h -> save_preimage h p w = (Raise AssertionError, w))
  /\ (forall w, reachable w ->
        forall k v, preimages w !! k = Some v ->
          exists h p, k = bh2u h /\ v = bh2u p /\ sha256 p = h)
  /\ (forall w, reachable w ->
        forall h p w', get_preimage h w = (Ok p, w') -> sha256 p = h).
Proof.
  split; [exact save_preimage_rejects|]. split.
  - intros w Hr. exact (reachable_consistent w Hr).
  - intros w Hr h p w'. unfold get_preimage, bind, gets. cbn.
    destruct (preimages w !! bh2u h) as [v|] eqn:Hv; [|discriminate].
    destruct (reachable_consistent w Hr _ _ Hv) as (h' & p' & Hk & -> & Hs).
    apply bh2u_inj in Hk. subst h'. rewrite bfh_bh2u. unfold ret. congruence.
Qed.

(** C10. Deleting an invoice whose key is not in the invoices map returns
    normally and leaves the whole worker, storage included, as it was. *)
Theorem delete_invoice_missing (w : LNWallet) (payment_hash_hex : string) :
  invoices w !! payment_hash_hex = None ->
  delete_invoice payment_hash_hex w = (Ok tt, w).
Proof.
  intros Hnone. unfold delete_invoice, bind, gets. cbn. rewrite Hnone. reflexivity.
Qed.

Lemma effects_grow_ne (l : list Effect) (e : Effect) : l <> l ++ [e].
Proof.
  intros E. apply (f_equal length) in E. rewrite length_app in E. cbn in E. lia.
Qed.

Lemma set_invoice_status_effects (w : LNWallet) (h : bytes) (st : PRStatus)
    (a : option Z) (d : Direction) (s : PRStatus) :
  invoices w !! bh2u h = Some (a, d, s) ->
  effects (set_invoice_status h st w).2 =
    if bool_decide (d = RECEIVED) && bool_decide (st = PR_PAID)
    then effects w ++ [Callback_payment_received (bh2u h) PR_PAID]
    else effects w.
Proof.
  intros Hl. unfold set_invoice_status, get_invoice_info, bind, gets. cbn.
  rewrite Hl. cbn.
  destruct (bool_decide (d = RECEIVED) && bool_decide (st = PR_PAID)); reflexivity.
Qed.

(** C6 (amended). [set_invoice_status] appends the payment_received
    notification exactly when the invoice is in the store, its direction is
    RECEIVED and the status being set is PR_PAID, whatever the status was
    before; for a hash with no stored invoice it returns normally and the
    worker is unchanged. *)
Theorem set_invoice_status_notifies (w : LNWallet) (h : bytes) (st : PRStatus) :
  (payment_received_fired h st w = true <->
     exists amt old, invoices w !! bh2u h = Some (amt, RECEIVED, old) /\ st = PR_PAID)
  /\ (invoices w !! bh2u h = None -> set_invoice_status h st w = (Ok tt, w)).
Proof.
  split.
  - unfold payment_received_fired. rewrite bool_decide_eq_true.
    destruct (invoices w !! bh2u h) as [[[a d] s]|] eqn:Hl.
    + rewrite (set_invoice_status_effects w h st a d s Hl).
      destruct (decide (d = RECEIVED)) as [->|Hd], (decide (st = PR_PAID)) as [->|Hs].
      * cbn. split; [intros _; by exists a, s | done].
      * rewrite (bool_decide_eq_false_2 (st = PR_PAID)) by done. rewrite andb_false_r.
        split; [intros E; destruct (effects_grow_ne _ _ E) | intros (? & ? & _ & ?); done].
      * rewrite (bool_decide_eq_false_2 (d = RECEIVED)) by done. cbn.
        split; [intros E; destruct (effects_grow_ne _ _ E) | intros (? & ? & ? & _); congruence].
      * rewrite (bool_decide_eq_false_2 (d = RECEIVED)) by done. cbn.
        split; [intros E; destruct (effects_grow_ne _ _ E) | intros (? & ? & ? & _); congruence].
    + unfold set_invoice_status, get_invoice_info, bind, gets. cbn. rewrite Hl. cbn.
      split; [intros E; destruct (effects_grow_ne _ _ E) | intros (? & ? & ? & _); done].
  - unfold set_invoice_status, get_invoice_info, bind, gets. cbn.
    destruct (invoices w !! bh2u h); [discriminate | reflexivity].
Qed.

(** ** Channel store *)

Lemma deref_allocated (w : LNWallet) (chan : nat) (c : Channel) :
  heap w !! chan = Some c -> deref chan w = (Ok c, w).
Proof. intros H. unfold deref. rewrite H. reflexivity. Qed.

Lemma save_channel_stale_point (w : LNWallet) (chan : nat) (c : Channel) :
  heap w !! chan = Some c ->
  next_per_commitment_point (config_REMOTE c)
    = current_per_commitment_point (config_REMOTE c) ->
  save_channel chan w
    = (Raise (Exception "Tried to save channel with next_point == current_point, this should not happen"), w).
Proof.
  intros Hc Heq. unfold save_channel, bind.
  rewrite (deref_allocated w chan c Hc).
  rewrite bool_decide_eq_true_2 by assumption. reflexivity.
Qed.

(** C4. Saving a channel whose remote next_per_commitment_point equals its
    current_per_commitment_point raises, and the channels map, the stored
    values with the persisted channel list among them, the number of
    storage writes and indeed the whole worker are left as they were. *)
Theorem save_channel_stale_point_raises (w : LNWallet) (chan : nat) (c : Channel) :
  heap w !! chan = Some c ->
  next_per_commitment_point (config_REMOTE c)
    = current_per_commitment_point (config_REMOTE c) ->
  exists msg w',
    save_channel chan w = (Raise (Exception msg), w')
    /\ channels w' = channels w
    /\ storage w' !! "channels" = storage w !! "channels"
    /\ storage_writes w' = storage_writes w
    /\ w' = w.
Proof.
  intros Hc Heq. eexists _, w. split; [exact (save_channel_stale_point w chan c Hc Heq)|].
  repeat split.
Qed.

Lemma save_channel_fresh_point (w : LNWallet) (chan : nat) (c : Channel) :
  heap w !! chan = Some c ->
  next_per_commitment_point (config_REMOTE c)
    <> current_per_commitment_point (config_REMOTE c) ->
  save_channel chan w =
    (Ok tt,
     let w1 := with_channels (dict_set (channel_id c) chan) w in
     mkLNWallet (invoices w1) (preimages w1) (heap w1) (channels w1)
       (<["channels" := SV_channels (channel_values w1)]> (storage w1))
       (S (storage_writes w1)) (effects w1 ++ [Callback_channel chan])).
Proof.
  intros Hc Hne. unfold save_channel, bind.
  rewrite (deref_allocated w chan c Hc).
  rewrite bool_decide_eq_false_2 by assumption. reflexivity.
Qed.

Lemma dict_set_elem (k : bytes) (v : nat) (d : list (bytes * nat)) :
  (k, v) ∈ dict_set k v d.
Proof.
  induction d as [|[k' v'] r IH]; cbn.
  - apply list_elem_of_here.
  - destruct (decide (k' = k)); [apply list_elem_of_here | by apply list_elem_of_further].
Qed.

Lemma channel_values_elem (w : LNWallet) (k : bytes) (chan : nat) (c : Channel) :
  (k, chan) ∈ channels w -> heap w !! chan = Some c -> c ∈ channel_values w.
Proof.
  intros Hin Hc. unfold channel_values. apply list_elem_of_omap.
  exists (k, chan). split; [exact Hin | exact Hc].
Qed.

Section ShortChanId.

Variables (w : LNWallet) (chan : nat) (c : Channel).
Hypothesis allocated : heap w !! chan = Some c.





End ShortChanId.


(** ** Routing hints *)

Lemma spec_hint_eligible_skip_state (amount_sat : option Z) (c : Channel) :
  String.eqb (state c) "OPEN" = false -> spec_hint_eligible amount_sat c = false.
Proof. intros H. unfold spec_hint_eligible. rewrite H. reflexivity. Qed.

Lemma spec_hint_fields (c : Channel) (scid : bytes) :
  short_channel_id c = Some scid ->
  spec_hint c =
    Some (let '(base, prop, delta) := hint_fields c scid in
          Tag_r [(node_id c, scid, base, prop, delta)]).
Proof.
  intros Hs. unfold spec_hint, hint_fields. rewrite Hs.
  destruct (get_channel_info scid) as [ci|]; [|reflexivity].
  destruct (get_policy_for_node (info_short_channel_id ci) (node_id c)); reflexivity.
Qed.

Lemma routing_hints_loop_spec (amount_sat : option Z) (chans : list Channel) :
  (forall c, c ∈ chans -> spec_hint_eligible amount_sat c = true ->
             is_Some (short_channel_id c)) ->
  forall acc,
    routing_hints_loop amount_sat chans acc
    = Ok (acc ++ spec_routing_hints amount_sat chans).
Proof.
  unfold spec_routing_hints.
  induction chans as [|c rest IH]; intros Hscid acc.
  - cbn. by rewrite app_nil_r.
  - assert (Hrest : forall c0, c0 ∈ rest -> spec_hint_eligible amount_sat c0 = true ->
                               is_Some (short_channel_id c0)).
    { intros c0 Hin. apply Hscid. by apply list_elem_of_further. }
    cbn [routing_hints_loop]. rewrite filter_cons.
    destruct (String.eqb (state c) "OPEN") eqn:Hopen; cbn [negb].
    + destruct (truthy amount_sat) eqn:Hgiven; cbn [andb].
      * destruct (balance_REMOTE c / 1000 <? default 0 amount_sat)%Z eqn:Hbal.
        -- assert (He : spec_hint_eligible amount_sat c = false).
           { unfold spec_hint_eligible. rewrite Hopen, Hgiven. cbn.
             apply Z.ltb_lt in Hbal. apply Z.leb_gt. exact Hbal. }
           rewrite decide_False by (rewrite He; discriminate). by apply IH.
        -- assert (He : spec_hint_eligible amount_sat c = true).
           { unfold spec_hint_eligible. rewrite Hopen, Hgiven. cbn.
             apply Z.ltb_ge in Hbal. apply Z.leb_le. exact Hbal. }
           rewrite decide_True by exact He.
           destruct (Hscid c (list_elem_of_here _ _) He) as [scid Hs]. rewrite Hs.
           cbn [omap list_omap]. rewrite (spec_hint_fields c scid Hs).
           destruct (hint_fields c scid) as [[base prop] delta].
           rewrite IH by exact Hrest. by rewrite <- app_assoc.
      * assert (He : spec_hint_eligible amount_sat c = true).
        { unfold spec_hint_eligible. rewrite Hopen, Hgiven. reflexivity. }
        rewrite decide_True by exact He.
        destruct (Hscid c (list_elem_of_here _ _) He) as [scid Hs]. rewrite Hs.
        cbn [omap list_omap]. rewrite (spec_hint_fields c scid Hs).
        destruct (hint_fields c scid) as [[base prop] delta].
        rewrite IH by exact Hrest. by rewrite <- app_assoc.
    + rewrite decide_False
        by (rewrite (spec_hint_eligible_skip_state amount_sat c Hopen); discriminate).
      by apply IH.
Qed.

(** C8. Provided every eligible channel carries a short_channel_id (the
    code asserts it), [_calc_routing_hints_for_invoice] returns, in channel
    order, exactly one 'r' hint
    [(remote node id, scid, fee_base_msat, fee_prop_ppm, cltv_delta)] for
    each channel whose state is OPEN and whose remote balance // 1000 is at
    least [amount_sat] when an amount is given (a non-zero one, by Python's
    truth test); channels in any other state give no hint; and a channel
    without stored channel info or policy gets the fields (0, 0, 1). The
    worker is not changed. *)
Theorem calc_routing_hints_for_invoice_spec (w : LNWallet) (amount_sat : option Z) :
  (forall c, c ∈ channel_values w -> spec_hint_eligible amount_sat c = true ->
             is_Some (short_channel_id c)) ->
  _calc_routing_hints_for_invoice amount_sat w
    = (Ok (spec_routing_hints amount_sat (channel_values w)), w)
  /\ length (spec_routing_hints amount_sat (channel_values w))
     = length (filter (fun c => spec_hint_eligible amount_sat c = true) (channel_values w))
  /\ (forall c, state c <> "OPEN" -> spec_hint_eligible amount_sat c = false)
  /\ (forall c scid, short_channel_id c = Some scid ->
        (get_channel_info scid = None
         \/ exists ci, get_channel_info scid = Some ci
                       /\ get_policy_for_node (info_short_channel_id ci) (node_id c) = None) ->
        spec_hint c = Some (Tag_r [(node_id c, scid, 0, 0, 1)%Z])).
Proof.
  intros Hscid. split; [|split; [|split]].
  - unfold _calc_routing_hints_for_invoice, bind, gets. cbn.
    rewrite (routing_hints_loop_spec amount_sat (channel_values w) Hscid []). reflexivity.
  - unfold spec_routing_hints.
    assert (Hall : forall c, c ∈ filter (fun c => spec_hint_eligible amount_sat c = true)
                                   (channel_values w) -> is_Some (spec_hint c)).
    { intros c Hin. apply list_elem_of_filter in Hin as [He Hin].
      destruct (Hscid c Hin He) as [scid Hs].
      rewrite (spec_hint_fields c scid Hs). by eexists. }
    induction (filter (fun c => spec_hint_eligible amount_sat c = true) (channel_values w))
      as [|c l IH]; [reflexivity|].
    cbn. destruct (Hall c (list_elem_of_here _ _)) as [t Ht]. rewrite Ht. cbn.
    f_equal. apply IH. intros c0 Hin. apply Hall. by apply list_elem_of_further.
  - intros c Hst. apply spec_hint_eligible_skip_state.
    destruct (String.eqb_spec (state c) "OPEN"); [contradiction | reflexivity].
  - intros c scid Hs Hnone. unfold spec_hint. rewrite Hs.
    destruct Hnone as [-> | (ci & -> & ->)]; reflexivity.
Qed.

(** ** Sweeps *)

(** C5 (the code at the failing input). When [gen_tx()] returns None the
    coroutine does not return normally: after the log line it evaluates
    [tx.txid()] on None and raises AttributeError. Nothing is broadcast, no
    future transaction is registered and the worker is unchanged. *)
Theorem try_redeem_dust_raises (w : LNWallet) (prevout prev_txid prev_index : string)
    (sweep_info : SweepInfo.t) :
  split_on ":" prevout = [prev_txid; prev_index] ->
  SweepInfo.gen_tx sweep_info = None ->
  try_redeem prevout sweep_info w = (Raise AttributeError, w).
Proof.
  intros Hsplit Hdust. unfold try_redeem. rewrite Hsplit, Hdust.
  destruct (truthy (SweepInfo.cltv_expiry sweep_info));
    destruct (truthy (SweepInfo.csv_delay sweep_info));
    repeat match goal with
           | |- context [if ?b then _ else _] => destruct b
           end; reflexivity.
Qed.

(** ** Payments *)

(** C9. For a decodable invoice, [_check_invoice] raises InvoiceError
    exactly when the invoice is expired, or its amount is missing once a
    given [amount_sat] has been substituted (given by Python's truth test:
    neither None nor 0), or min_final_cltv_expiry exceeds 60 * 144;
    otherwise it returns the decoded address with that amount. *)
Theorem check_invoice_raises_iff (invoice : string) (amount_sat : option Z) (addr : LnAddr) :
  lndecode invoice = Some addr ->
  let addr' :=
    if truthy amount_sat
    then set_amount addr (Some (inject_Z (default 0%Z amount_sat) / inject_Z COIN)%Q)
    else addr in
  let rejected :=
    is_expired addr = true
    \/ addr_amount addr' = None
    \/ (60 * 144 < get_min_final_cltv_expiry addr')%Z in
  ((exists msg, _check_invoice invoice amount_sat = Raise (InvoiceError msg)) <-> rejected)
  /\ (~ rejected -> _check_invoice invoice amount_sat = Ok addr').
Proof.
  intros Hdec addr' rejected. unfold _check_invoice. rewrite Hdec.
  fold addr'. subst rejected.
  destruct (is_expired addr) eqn:Hexp.
  - split; [split; [intros _; by left | intros _; by eexists] | intros H; destruct H; by left].
  - destruct (addr_amount addr') as [q|] eqn:Hamt.
    + destruct (60 * 144 <? get_min_final_cltv_expiry addr')%Z eqn:Hcltv.
      * apply Z.ltb_lt in Hcltv.
        split; [split; [intros _; right; by right | intros _; by eexists]
               | intros H; destruct H; right; by right].
      * apply Z.ltb_ge in Hcltv. split; [|reflexivity].
        split; [intros [msg Hm]; discriminate | intros [H|[H|H]]; [discriminate..|lia]].
    + split; [split; [intros _; right; by left | intros _; by eexists]
             | intros H; destruct H; right; by left].
Qed.

Section Routes.

Variables (amount_msat min_final_cltv_expiry : Z) (invoice_pubkey : bytes)
  (chans : list Channel).





End Routes.

(** The amount is read first: without one the call raises TypeError before
    any route is planned. *)
Lemma create_route_from_invoice_needs_amount (w : LNWallet) (decoded_invoice : LnAddr) :
  addr_amount decoded_invoice = None ->
  _create_route_from_invoice decoded_invoice w = (Raise TypeError, w).
Proof. intros Hamt. unfold _create_route_from_invoice. rewrite Hamt. reflexivity. Qed.


(** C2. When the stored status of the invoice's payment hash is PR_PAID,
    [_pay] raises PaymentFailure "This invoice has been paid already" and
    the worker is exactly as before: no InvoiceInfo was written, nothing was
    stored, no route was built and no payment was attempted. *)
Theorem pay_rejects_paid_invoice (w : LNWallet) (invoice : string)
    (amount_sat : option Z) (attempts : nat) (lnaddr : LnAddr)
    (a : option Z) (d : Direction) :
  lndecode invoice = Some lnaddr ->
  invoices w !! bh2u (paymenthash lnaddr) = Some (a, d, PR_PAID) ->
  _pay invoice amount_sat attempts w
    = (Raise (PaymentFailure "This invoice has been paid already"), w).
Proof.
  intros Hdec Hpaid. unfold _pay. rewrite Hdec.
  unfold bind at 1. unfold get_invoice_status, get_invoice_info, bind, gets. cbn.
  destruct (invoices w !! bh2u (paymenthash lnaddr)) as [[[a' d'] s']|]; [|discriminate].
  injection Hpaid as -> -> ->. reflexivity.
Qed.

(** * Further properties *)

(** ** Invoice and preimage store: round trips *)

Lemma storage_after_save_invoice_info (info : InvoiceInfo) (w : LNWallet) :
  save_invoice_info info w
  = (Ok tt,
     mkLNWallet (<[bh2u (payment_hash info) := (amount info, direction info, status info)]> (invoices w))
       (preimages w) (heap w) (channels w)
       (<["lightning_invoices2" :=
            SV_invoices (<[bh2u (payment_hash info) := (amount info, direction info, status info)]> (invoices w))]>
          (storage w))
       (S (storage_writes w)) (effects w)).
Proof. reflexivity. Qed.

Lemma get_invoice_info_lookup (h : bytes) (w : LNWallet) :
  get_invoice_info h w
  = (match invoices w !! bh2u h with
     | Some (a, d, s) => Ok (mkInvoiceInfo h a d s)
     | None => Raise (UnknownPaymentHash h)
     end, w).
Proof.
  unfold get_invoice_info, bind, gets. cbn.
  destruct (invoices w !! bh2u h) as [[[a d] s]|]; reflexivity.
Qed.

(** X1. What [save_invoice_info] stores, [get_invoice_info] reads back for
    the same payment hash; the answer for every other hash is as before; and
    the whole map is persisted under lightning_invoices2 with one write. *)
Theorem save_invoice_info_roundtrip (info : InvoiceInfo) (w : LNWallet) :
  let w' := (save_invoice_info info w).2 in
  get_invoice_info (payment_hash info) w' = (Ok info, w')
  /\ (forall h, h <> payment_hash info ->
        (get_invoice_info h w').1 = (get_invoice_info h w).1)
  /\ storage w' !! "lightning_invoices2" = Some (SV_invoices (invoices w'))
  /\ storage_writes w' = S (storage_writes w).
Proof.
  rewrite storage_after_save_invoice_info. cbn [snd]. split; [|split; [|split]].
  - rewrite get_invoice_info_lookup. cbn [invoices]. rewrite lookup_insert_eq.
    destruct info; reflexivity.
  - intros h Hne. rewrite !get_invoice_info_lookup. cbn [invoices fst].
    rewrite lookup_insert_ne by (intros E; apply bh2u_inj in E; congruence).
    reflexivity.
  - cbn. apply lookup_insert_eq.
  - reflexivity.
Qed.

(** X2. A preimage accepted by [save_preimage] is what [get_preimage]
    returns for its hash, and the preimage map is persisted under
    lightning_preimages. *)
Theorem save_preimage_roundtrip (h p : bytes) (w : LNWallet) :
  sha256 p = h ->
  let w' := (save_preimage h p w).2 in
  (save_preimage h p w).1 = Ok tt
  /\ get_preimage h w' = (Ok p, w')
  /\ storage w' !! "lightning_preimages" = Some (SV_preimages (preimages w')).
Proof.
  intros Hs. unfold save_preimage. rewrite bool_decide_eq_true_2 by exact Hs.
  cbn. split; [reflexivity|]. split.
  - unfold get_preimage, bind, gets. cbn. rewrite lookup_insert_eq, bfh_bh2u. reflexivity.
  - apply lookup_insert_eq.
Qed.

(** X3. Deleting a stored invoice removes it from the map in memory and
    leaves the other keys alone, but the map is then written under the
    storage key lightning_invoices: the entry lightning_invoices2, under
    which save_invoice_info persists and from which the map is loaded, is
    not touched by the call. *)
Theorem delete_invoice_present (k : string) (v : InvoiceTuple) (w : LNWallet) :
  invoices w !! k = Some v ->
  let w' := (delete_invoice k w).2 in
  (delete_invoice k w).1 = Ok tt
  /\ invoices w' !! k = None
  /\ (forall k', k' <> k -> invoices w' !! k' = invoices w !! k')
  /\ storage w' !! "lightning_invoices" = Some (SV_invoices (invoices w'))
  /\ storage w' !! "lightning_invoices2" = storage w !! "lightning_invoices2"
  /\ storage_writes w' = S (storage_writes w).
Proof.
  intros Hk. unfold delete_invoice, bind, gets. cbn.
  destruct (invoices w !! k) eqn:E; [|discriminate]. cbn.
  split; [reflexivity|]. split; [apply lookup_delete_eq|].
  split; [intros k' Hne; by apply lookup_delete_ne|].
  split; [apply lookup_insert_eq|]. split; [|reflexivity].
  by apply lookup_insert_ne.
Qed.

Lemma set_invoice_status_stored (h : bytes) (st : PRStatus) (w : LNWallet)
    (a : option Z) (d : Direction) (s : PRStatus) :
  invoices w !! bh2u h = Some (a, d, s) ->
  set_invoice_status h st w
  = (save_invoice_info (mkInvoiceInfo h a d st) ;;
     if bool_decide (d = RECEIVED) && bool_decide (st = PR_PAID)
     then emit (Callback_payment_received (bh2u h) PR_PAID)
     else ret tt) w.
Proof.
  intros Hl. unfold set_invoice_status. rewrite get_invoice_info_lookup.
  destruct (invoices w !! bh2u h) as [[[a' d'] s']|]; [|discriminate].
  injection Hl as -> -> ->. reflexivity.
Qed.

Lemma set_invoice_status_unknown (h : bytes) (st : PRStatus) (w : LNWallet) :
  invoices w !! bh2u h = None -> set_invoice_status h st w = (Ok tt, w).
Proof.
  intros Hl. unfold set_invoice_status. rewrite get_invoice_info_lookup.
  destruct (invoices w !! bh2u h) as [[[a' d'] s']|]; [discriminate | reflexivity].
Qed.

Lemma set_invoice_status_invoices (h : bytes) (st : PRStatus) (w : LNWallet)
    (a : option Z) (d : Direction) (s : PRStatus) :
  invoices w !! bh2u h = Some (a, d, s) ->
  (set_invoice_status h st w).1 = Ok tt
  /\ invoices (set_invoice_status h st w).2 = <[bh2u h := (a, d, st)]> (invoices w).
Proof.
  intros Hl. rewrite (set_invoice_status_stored h st w a d s Hl).
  unfold bind. rewrite storage_after_save_invoice_info.
  destruct (bool_decide (d = RECEIVED) && bool_decide (st = PR_PAID)); split; reflexivity.
Qed.

(** X4. After [set_invoice_status] the status read back is the one set when
    the invoice is stored (amount and direction are kept), and stays
    PR_UNKNOWN when it is not. *)
Theorem set_then_get_invoice_status (h : bytes) (st : PRStatus) (w : LNWallet) :
  let w' := (set_invoice_status h st w).2 in
  (get_invoice_status h w').1
    = Ok (match invoices w !! bh2u h with Some _ => st | None => PR_UNKNOWN end)
  /\ (forall a d s, invoices w !! bh2u h = Some (a, d, s) ->
        invoices w' = <[bh2u h := (a, d, st)]> (invoices w)).
Proof.
  intros w'. subst w'. unfold get_invoice_status. rewrite get_invoice_info_lookup.
  destruct (invoices w !! bh2u h) as [[[a d] s]|] eqn:Hl.
  - destruct (set_invoice_status_invoices h st w a d s Hl) as [_ Hinv].
    rewrite Hinv, lookup_insert_eq. split; [reflexivity|].
    intros ? ? ? [= <- <- <-]. reflexivity.
  - rewrite (set_invoice_status_unknown h st w Hl). cbn [snd].
    unfold InvoiceTuple in *. rewrite Hl.
    split; [reflexivity | intros ? ? ? [=]].
Qed.

(** ** Channel store: saving and looking up *)

Lemma dict_get_set_eq (k : bytes) (v : nat) (d : list (bytes * nat)) :
  dict_get k (dict_set k v d) = Some v.
Proof.
  induction d as [|[k' v'] r IH]; cbn.
  - by rewrite decide_True.
  - destruct (decide (k' = k)) as [->|Hne]; cbn.
    + by rewrite decide_True.
    + by rewrite decide_False.
Qed.

Lemma dict_get_set_ne (k k0 : bytes) (v : nat) (d : list (bytes * nat)) :
  k0 <> k -> dict_get k0 (dict_set k v d) = dict_get k0 d.
Proof.
  intros Hne. induction d as [|[k' v'] r IH]; cbn.
  - rewrite decide_False; [reflexivity | congruence].
  - destruct (decide (k' = k)) as [->|Hk]; cbn.
    + rewrite !decide_False by congruence. reflexivity.
    + destruct (decide (k' = k0)); [reflexivity | exact IH].
Qed.

Lemma dict_set_keys (k : bytes) (v : nat) (d : list (bytes * nat)) :
  (dict_set k v d).*1 = if decide (k ∈ d.*1) then d.*1 else d.*1 ++ [k].
Proof.
  induction d as [|[k' v'] r IH]; cbn.
  - rewrite decide_False; [reflexivity | apply not_elem_of_nil].
  - destruct (decide (k' = k)) as [->|Hk]; cbn.
    + rewrite decide_True; [reflexivity | apply list_elem_of_here].
    + rewrite IH. destruct (decide (k ∈ r.*1)) as [Hin|Hin].
      * rewrite decide_True; [reflexivity | by apply list_elem_of_further].
      * rewrite decide_False; [reflexivity|].
        intros H. apply elem_of_cons in H as [->|H]; [by apply Hk | by apply Hin].
Qed.

Lemma dict_set_keys_NoDup (k : bytes) (v : nat) (d : list (bytes * nat)) :
  NoDup d.*1 -> NoDup (dict_set k v d).*1.
Proof.
  intros Hnd. rewrite dict_set_keys. destruct (decide (k ∈ d.*1)) as [Hin|Hin]; [exact Hnd|].
  apply NoDup_app. split; [exact Hnd|]. split; [|apply NoDup_singleton].
  intros x Hx Hx'. apply list_elem_of_singleton in Hx'. subst x. by apply Hin.
Qed.

(** X5. When the remote points differ, [save_channel] binds the channel id
    to the object (other ids keep their binding, a dict without duplicate
    keys stays so), persists the dump of the current channels, which
    contains the channel, and leaves the channel objects as they are. *)
Theorem save_channel_stores (w : LNWallet) (chan : nat) (c : Channel) :
  heap w !! chan = Some c ->
  next_per_commitment_point (config_REMOTE c)
    <> current_per_commitment_point (config_REMOTE c) ->
  let w' := (save_channel chan w).2 in
  (save_channel chan w).1 = Ok tt
  /\ dict_get (channel_id c) (channels w') = Some chan
  /\ (forall k, k <> channel_id c -> dict_get k (channels w') = dict_get k (channels w))
  /\ (NoDup (channels w).*1 -> NoDup (channels w').*1)
  /\ storage w' !! "channels" = Some (SV_channels (channel_values w'))
  /\ storage_writes w' = S (storage_writes w)
  /\ c ∈ channel_values w'
  /\ heap w' = heap w.
Proof.
  intros Hc Hne. rewrite (save_channel_fresh_point w chan c Hc Hne). cbn [fst snd].
  split; [reflexivity|]. split; [apply dict_get_set_eq|].
  split; [intros k Hk; by apply dict_get_set_ne|].
  split; [apply dict_set_keys_NoDup|].
  split; [apply lookup_insert_eq|]. split; [reflexivity|]. split; [|reflexivity].
  apply (channel_values_elem _ (channel_id c) chan c); [apply dict_set_elem | exact Hc].
Qed.

Lemma find_by_short_id_some (h : gmap nat Channel) (scid : bytes)
    (chans : list (bytes * nat)) (chan : nat) :
  find_by_short_id h scid chans = Some chan ->
  exists k c, (k, chan) ∈ chans /\ h !! chan = Some c /\ short_channel_id c = Some scid.
Proof.
  induction chans as [|[k a] rest IH]; cbn; [discriminate|].
  destruct (h !! a) as [c|] eqn:Ha.
  - destruct (bool_decide (short_channel_id c = Some scid)) eqn:Hs.
    + intros [= <-]. apply bool_decide_eq_true in Hs.
      exists k, c. split; [apply list_elem_of_here | by split].
    + intros H. destruct (IH H) as (k' & c' & Hin & Hh & Hsc).
      exists k', c'. split; [by apply list_elem_of_further | by split].
  - intros H. destruct (IH H) as (k' & c' & Hin & Hh & Hsc).
    exists k', c'. split; [by apply list_elem_of_further | by split].
Qed.

Lemma find_by_short_id_none (h : gmap nat Channel) (scid : bytes)
    (chans : list (bytes * nat)) :
  find_by_short_id h scid chans = None ->
  forall k chan c, (k, chan) ∈ chans -> h !! chan = Some c -> short_channel_id c <> Some scid.
Proof.
  induction chans as [|[k a] rest IH]; cbn; intros Hf k0 chan c Hin Hh.
  - by apply not_elem_of_nil in Hin.
  - apply elem_of_cons in Hin as [[= -> ->]|Hin].
    + rewrite Hh in Hf. destruct (bool_decide (short_channel_id c = Some scid)) eqn:Hs;
        [discriminate|]. by apply bool_decide_eq_false in Hs.
    + destruct (h !! a) as [c'|].
      * destruct (bool_decide (short_channel_id c' = Some scid)); [discriminate|].
        by apply (IH Hf k0 chan c).
      * by apply (IH Hf k0 chan c).
Qed.

(** X6. [get_channel_by_short_id] does not change the worker; a channel it
    returns is in the channels dict and has the short_channel_id asked for,
    and when it returns None no channel of the dict has that id. *)
Theorem get_channel_by_short_id_spec (scid : bytes) (w : LNWallet) :
  exists r, get_channel_by_short_id scid w = (Ok r, w)
  /\ match r with
     | Some chan =>
         exists k c, (k, chan) ∈ channels w /\ heap w !! chan = Some c
                     /\ short_channel_id c = Some scid
     | None => forall c, c ∈ channel_values w -> short_channel_id c <> Some scid
     end.
Proof.
  exists (find_by_short_id (heap w) scid (channels w)). split; [reflexivity|].
  destruct (find_by_short_id (heap w) scid (channels w)) as [chan|] eqn:Hf.
  - by apply find_by_short_id_some.
  - intros c Hin. unfold channel_values in Hin.
    apply list_elem_of_omap in Hin as ([k chan] & Hin & Hh).
    by apply (find_by_short_id_none _ _ _ Hf k chan c).
Qed.

(** ** Payments: what _pay and _pay_to_route leave behind *)

Lemma get_invoice_status_lookup (h : bytes) (w : LNWallet) :
  get_invoice_status h w
  = (Ok (match invoices w !! bh2u h with
         | Some (_, _, s) => s
         | None => PR_UNKNOWN
         end), w).
Proof.
  unfold get_invoice_status. rewrite get_invoice_info_lookup.
  destruct (invoices w !! bh2u h) as [[[a d] s]|]; reflexivity.
Qed.

(** The InvoiceInfo [_pay] writes before it validates the invoice. *)
Lemma pay_unfold_unpaid (w : LNWallet) (invoice : string) (amount_sat : option Z)
    (attempts : nat) (lnaddr : LnAddr) :
  lndecode invoice = Some lnaddr ->
  (forall a d, invoices w !! bh2u (paymenthash lnaddr) <> Some (a, d, PR_PAID)) ->
  _pay invoice amount_sat attempts w
  = (do _ <- lift (_check_invoice invoice amount_sat);
     emit (Wallet_set_label (bh2u (paymenthash lnaddr)) (get_description lnaddr)) ;;
     pay_attempts (bh2u (paymenthash lnaddr)) lnaddr invoice 0 attempts)
      (save_invoice_info
         (mkInvoiceInfo (paymenthash lnaddr)
            (if decimal_truthy (addr_amount lnaddr)
             then Some (int_of_decimal (default 0%Q (addr_amount lnaddr) * inject_Z COIN)%Q)
             else None) SENT PR_UNPAID) w).2.
Proof.
  intros Hdec Hunpaid. unfold _pay. rewrite Hdec.
  unfold bind at 1. rewrite get_invoice_status_lookup.
  destruct (invoices w !! bh2u (paymenthash lnaddr)) as [[[a d] s]|] eqn:Hl.
  - rewrite bool_decide_eq_false_2
      by (intros ->; exact (Hunpaid a d eq_refl)).
    unfold bind at 1. rewrite storage_after_save_invoice_info. reflexivity.
  - rewrite bool_decide_eq_false_2 by discriminate.
    unfold bind at 1. rewrite storage_after_save_invoice_info. reflexivity.
Qed.

(** X7. [_pay] stores the (hash, amount, SENT, PR_UNPAID) record before it
    validates: when [_check_invoice] rejects an invoice that is not marked
    paid (expired, no amount, excessive expiry), [_pay] raises that error
    with the record already written and persisted, in place of whatever was
    stored for the hash; no label is set and nothing is attempted. *)
Theorem pay_records_before_check (w : LNWallet) (invoice : string)
    (amount_sat : option Z) (attempts : nat) (lnaddr : LnAddr) (e : Exn) :
  lndecode invoice = Some lnaddr ->
  (forall a d, invoices w !! bh2u (paymenthash lnaddr) <> Some (a, d, PR_PAID)) ->
  _check_invoice invoice amount_sat = Raise e ->
  exists w',
    _pay invoice amount_sat attempts w = (Raise e, w')
    /\ invoices w' !! bh2u (paymenthash lnaddr)
       = Some (if decimal_truthy (addr_amount lnaddr)
               then Some (int_of_decimal (default 0%Q (addr_amount lnaddr) * inject_Z COIN)%Q)
               else None, SENT, PR_UNPAID)
    /\ storage w' !! "lightning_invoices2" = Some (SV_invoices (invoices w'))
    /\ effects w' = effects w.
Proof.
  intros Hdec Hunpaid Hcheck.
  rewrite (pay_unfold_unpaid w invoice amount_sat attempts lnaddr Hdec Hunpaid).
  rewrite storage_after_save_invoice_info. cbn [snd].
  unfold bind at 1, lift. rewrite Hcheck.
  eexists. split; [reflexivity|]. cbn.
  split; [apply lookup_insert_eq|]. split; [apply lookup_insert_eq | reflexivity].
Qed.

(** X8. With [attempts = 0] a valid unpaid invoice is recorded and
    labelled, no route is built, no payment_status callback is sent, and
    [_pay] returns False. *)
Theorem pay_zero_attempts (w : LNWallet) (invoice : string)
    (amount_sat : option Z) (lnaddr addr : LnAddr) :
  lndecode invoice = Some lnaddr ->
  (forall a d, invoices w !! bh2u (paymenthash lnaddr) <> Some (a, d, PR_PAID)) ->
  _check_invoice invoice amount_sat = Ok addr ->
  exists w',
    _pay invoice amount_sat 0 w = (Ok false, w')
    /\ (exists a, invoices w' !! bh2u (paymenthash lnaddr) = Some (a, SENT, PR_UNPAID))
    /\ effects w'
       = effects w ++ [Wallet_set_label (bh2u (paymenthash lnaddr)) (get_description lnaddr)].
Proof.
  intros Hdec Hunpaid Hcheck.
  rewrite (pay_unfold_unpaid w invoice amount_sat 0 lnaddr Hdec Hunpaid).
  rewrite storage_after_save_invoice_info. cbn [snd].
  unfold bind at 1, lift. rewrite Hcheck.
  eexists. split; [reflexivity|]. cbn.
  split; [eexists; apply lookup_insert_eq | reflexivity].
Qed.

(** X9. Whatever the peer does in between, when [_pay_to_route] returns,
    the invoice of the payment hash, if stored, is PR_PAID after a success
    and PR_UNPAID after a failure. *)
Theorem pay_to_route_final_status (route : list RouteEdge.t) (addr : LnAddr)
    (invoice : string) (w w' : LNWallet) (success : bool) :
  _pay_to_route route addr invoice w = (Ok success, w') ->
  match invoices w' !! bh2u (paymenthash addr) with
  | Some (_, _, s) => s = if success then PR_PAID else PR_UNPAID
  | None => True
  end.
Proof.
  unfold _pay_to_route. destruct route as [|edge0 rest]; [discriminate|].
  unfold bind at 1. cbn [get_channel_by_short_id bind gets ret].
  destruct (find_by_short_id (heap w) (RouteEdge.short_channel_id edge0) (channels w))
    as [chan|]; [|discriminate].
  unfold bind at 1.
  destruct (set_invoice_status (paymenthash addr) PR_INFLIGHT w) as [[[]|e1] w1];
    [|discriminate].
  destruct (peer_connected (RouteEdge.node_id edge0)); [|discriminate]. cbn [negb].
  destruct (addr_amount addr) as [amount0|]; [|discriminate].
  unfold bind at 1.
  destruct (peer_pay _ _ _ _ _ w1) as [[htlc_id|e2] w2]; [|discriminate].
  unfold bind at 1. cbn [emit modify].
  unfold bind at 1.
  destruct (await_pending_payment _ _ _) as [[ok|e3] w3]; [|discriminate].
  unfold bind at 1.
  set (st := if ok then PR_PAID else PR_UNPAID).
  destruct (invoices w3 !! bh2u (paymenthash addr)) as [[[a d] s]|] eqn:Hl.
  - destruct (set_invoice_status_invoices (paymenthash addr) st w3 a d s Hl) as [Hok Hinv].
    destruct (set_invoice_status (paymenthash addr) st w3) as [[[]|e4] w4]; [|discriminate].
    cbn in Hinv. intros [= <- <-]. unfold InvoiceTuple in *.
    rewrite Hinv, lookup_insert_eq. reflexivity.
  - rewrite (set_invoice_status_unknown (paymenthash addr) st w3 Hl).
    intros [= <- <-]. unfold InvoiceTuple in *. by rewrite Hl.
Qed.

(** X10. A route whose first hop's channel is not one of ours is refused
    before anything happens: [_pay_to_route] raises, the invoice status is
    not set to PR_INFLIGHT and the worker is unchanged. *)
Theorem pay_to_route_unknown_channel (edge0 : RouteEdge.t) (rest : list RouteEdge.t)
    (addr : LnAddr) (invoice : string) (w : LNWallet) :
  (forall c, c ∈ channel_values w ->
             short_channel_id c <> Some (RouteEdge.short_channel_id edge0)) ->
  exists msg, _pay_to_route (edge0 :: rest) addr invoice w = (Raise (Exception msg), w).
Proof.
  intros Hnone. unfold _pay_to_route. unfold bind at 1.
  cbn [get_channel_by_short_id bind gets ret].
  destruct (find_by_short_id (heap w) (RouteEdge.short_channel_id edge0) (channels w))
    as [chan|] eqn:Hf.
  - destruct (find_by_short_id_some _ _ _ _ Hf) as (k & c & Hin & Hh & Hs).
    destruct (Hnone c (channel_values_elem w k chan c Hin Hh) Hs).
  - by eexists.
Qed.

(** X11. When the peer of the first hop is not connected, [_pay_to_route]
    raises KeyError after it has marked the stored invoice PR_INFLIGHT, and
    that status stays. *)
Theorem pay_to_route_peer_missing (edge0 : RouteEdge.t) (rest : list RouteEdge.t)
    (addr : LnAddr) (invoice : string) (w : LNWallet) (chan : nat)
    (a : option Z) (d : Direction) (s : PRStatus) :
  find_by_short_id (heap w) (RouteEdge.short_channel_id edge0) (channels w) = Some chan ->
  peer_connected (RouteEdge.node_id edge0) = false ->
  invoices w !! bh2u (paymenthash addr) = Some (a, d, s) ->
  exists w',
    _pay_to_route (edge0 :: rest) addr invoice w = (Raise KeyError, w')
    /\ invoices w' !! bh2u (paymenthash addr) = Some (a, d, PR_INFLIGHT).
Proof.
  intros Hf Hpeer Hl. unfold _pay_to_route. unfold bind at 1.
  cbn [get_channel_by_short_id bind gets ret]. rewrite Hf.
  unfold bind at 1.
  destruct (set_invoice_status_invoices (paymenthash addr) PR_INFLIGHT w a d s Hl) as [Hok Hinv].
  destruct (set_invoice_status (paymenthash addr) PR_INFLIGHT w) as [[[]|e1] w1];
    [|discriminate].
  rewrite Hpeer. cbn [negb]. eexists. split; [reflexivity|].
  cbn in Hinv. unfold InvoiceTuple in *. rewrite Hinv. apply lookup_insert_eq.
Qed.

(** ** Routes through private hints *)

(** X12. Hints that are empty or longer than NUM_MAX_EDGES_IN_PAYMENT_PATH
    never influence the route: the loop over the hints gives the same result
    with them removed. *)
Theorem hint_loop_ignores_unusable (amount_msat cltv : Z) (invoice_pubkey : bytes)
    (chans : list Channel) (r_tags : list (list HintEdge))
    (route : option (list RouteEdge.t)) :
  hint_loop amount_msat cltv invoice_pubkey chans route r_tags
  = hint_loop amount_msat cltv invoice_pubkey chans route (filter usable_hint r_tags).
Proof.
  revert route. induction r_tags as [|pr rest IH]; intros route; [reflexivity|].
  rewrite filter_cons. destruct (decide (usable_hint pr)) as [Hu|Hu].
  - cbn [hint_loop]. rewrite !IH. reflexivity.
  - cbn [hint_loop]. unfold usable_hint in Hu.
    destruct (length pr =? 0)%nat eqn:E0; [apply IH|].
    destruct (NUM_MAX_EDGES_IN_PAYMENT_PATH <? length pr)%nat eqn:E1; [apply IH|].
    apply Nat.eqb_neq in E0. apply Nat.ltb_ge in E1. lia.
Qed.

Lemma append_private_edges_map (hops : list HintEdge) :
  forall (dests : list bytes) (prev : bytes) (route : list RouteEdge.t),
    length dests = length hops ->
    (forall hop, head hops = Some hop -> hop.1.1.1.1 = prev) ->
    (forall i hop dest, hops !! S i = Some hop -> dests !! i = Some dest ->
                        hop.1.1.1.1 = dest) ->
    append_private_edges prev
      (zip dests (map (fun edge : HintEdge => (edge.1.1.1.2, edge.1.1.2, edge.1.2, edge.2)) hops))
      route
    = route ++ map (fun hd => private_edge hd.1 hd.2) (zip hops dests).
Proof.
  induction hops as [|hop hops IH]; intros dests prev route Hlen Hhead Hnext.
  - destruct dests; [|discriminate]. cbn. by rewrite app_nil_r.
  - destruct dests as [|dest dests]; [discriminate|]. cbn in Hlen.
    cbn [map zip zip_with append_private_edges].
    destruct hop as [[[[node scid] fb] fp] cd]. cbn [fst snd].
    assert (Hprev : node = prev) by (exact (Hhead _ eq_refl)). subst prev.
    assert (Hhead' : forall hop', head hops = Some hop' -> hop'.1.1.1.1 = dest).
    { intros hop' Hh. destruct hops as [|h0 hops']; [discriminate|].
      injection Hh as <-. exact (Hnext 0%nat h0 dest eq_refl eq_refl). }
    assert (Hnext' : forall i hop' dest', hops !! S i = Some hop' ->
                       dests !! i = Some dest' -> hop'.1.1.1.1 = dest').
    { intros i hop' dest' Hi Hd. exact (Hnext (S i) hop' dest' Hi Hd). }
    unfold private_edge at 1. cbn [fst snd].
    destruct (get_routing_policy_for_channel node scid) as [p|];
      (rewrite IH; [rewrite <- app_assoc; reflexivity | lia | exact Hhead' | exact Hnext']).
Qed.

(** X13. The route built through a hint is the route to the border node
    followed by one edge per hop of the hint: the edge of hop [i] keeps the
    hop's short channel id, leads to the node of hop [i+1] (the payee for
    the last hop), and takes fee and expiry from the channel database when
    it has a policy for (node of hop [i], channel), else from the hint. *)
Theorem route_through_hint_edges (invoice_pubkey : bytes)
    (private_route : list HintEdge) (path : Path) :
  private_route <> [] ->
  route_through_hint invoice_pubkey private_route path
  = create_route_from_path path node_pubkey
    ++ map (fun hd => private_edge hd.1 hd.2)
         (zip private_route
              (tail (map (fun edge : HintEdge => edge.1.1.1.1) private_route)
               ++ [invoice_pubkey])).
Proof.
  intros Hne. unfold route_through_hint.
  destruct private_route as [|hop0 hops]; [contradiction|].
  apply append_private_edges_map.
  - cbn. rewrite length_app, length_map. cbn. lia.
  - intros hop [= <-]. reflexivity.
  - intros i hop dest Hi Hd.
    change (hops !! i = Some hop) in Hi.
    change ((((fun edge : HintEdge => edge.1.1.1.1) <$> hops) ++ [invoice_pubkey]) !! i
            = Some dest) in Hd.
    rewrite lookup_app_l in Hd.
    + rewrite list_lookup_fmap in Hd. unfold HintEdge in *. rewrite Hi in Hd.
      by injection Hd as <-.
    + rewrite length_fmap. by eapply lookup_lt_Some.
Qed.

(** ** Sweeps: when try_redeem broadcasts *)

Lemma split_on_length (c : ascii) (s : string) :
  length (split_on c s) = S (count_char c s).
Proof.
  induction s as [|a r IH]; [reflexivity|].
  cbn [split_on count_char]. destruct (Ascii.eqb a c).
  - cbn. by rewrite IH.
  - destruct (split_on c r) as [|h t]; [discriminate|]. cbn in IH |- *. exact IH.
Qed.

(** X14. A prevout that does not contain exactly one ':' is rejected with
    ValueError by the unpacking of [prevout.split(':')], before anything is
    done. *)
Theorem try_redeem_malformed_prevout (w : LNWallet) (prevout : string)
    (sweep_info : SweepInfo.t) :
  count_char ":" prevout <> 1%nat ->
  try_redeem prevout sweep_info w = (Raise ValueError, w).
Proof.
  intros Hcount. unfold try_redeem.
  pose proof (split_on_length ":" prevout) as Hlen.
  destruct (split_on ":" prevout) as [|a [|b [|c l]]]; cbn in Hlen; try reflexivity.
  lia.
Qed.

(** X15. For a well-formed prevout and a sweep transaction that exists,
    [try_redeem] labels the transaction and then does exactly one of two
    things: it broadcasts when neither a set CLTV expiry lies above the local
    height nor a set CSV delay exceeds the confirmations of the spent
    transaction, and otherwise registers a future transaction. The wait it
    registers is the CSV one whenever a CSV delay is set, also when the CLTV
    lock is the one still pending. *)
Theorem try_redeem_broadcast_iff (w : LNWallet) (prevout prev_txid prev_index : string)
    (sweep_info : SweepInfo.t) (tx : Transaction) :
  split_on ":" prevout = [prev_txid; prev_index] ->
  SweepInfo.gen_tx sweep_info = Some tx ->
  let cltv := SweepInfo.cltv_expiry sweep_info in
  let csv := SweepInfo.csv_delay sweep_info in
  let cltv_wait := (default 0 cltv - get_local_height)%Z in
  let csv_wait := (default 0 csv - get_tx_height_conf prev_txid)%Z in
  let locked := (truthy cltv && (0 <? cltv_wait)%Z) || (truthy csv && (0 <? csv_wait)%Z) in
  exists w',
    try_redeem prevout sweep_info w = (Ok tt, w')
    /\ effects w'
       = effects w
         ++ [Wallet_set_label (tx_txid tx) (SweepInfo.name sweep_info);
             if locked
             then Wallet_add_future_tx tx (Some (if truthy csv then csv_wait else cltv_wait))
             else Broadcast tx]
    /\ invoices w' = invoices w /\ heap w' = heap w /\ channels w' = channels w
    /\ storage w' = storage w.
Proof.
  intros Hsplit Htx cltv csv cltv_wait csv_wait locked.
  unfold try_redeem. rewrite Hsplit, Htx.
  fold cltv csv. subst locked. fold cltv_wait. fold csv_wait.
  destruct (truthy cltv), (truthy csv);
    destruct (0 <? cltv_wait)%Z, (0 <? csv_wait)%Z; cbn;
    (eexists; split; [reflexivity|]; cbn; rewrite <- app_assoc; repeat split).
Qed.

(** ** Force close *)

(** X16. [force_close_channel] persists before it broadcasts: for a
    channel of the dict whose remote points differ after set_force_closed,
    the force-closed object is saved and dumped to storage, then the
    channel and channels callbacks fire, then the commitment transaction is
    broadcast, in that order; the result is the txid unless the broadcast
    raised, in which case it is None and the channel stays saved. *)
Theorem force_close_channel_persists_then_broadcasts (w : LNWallet) (chan_id : bytes)
    (chan : nat) (c : Channel) :
  dict_get chan_id (channels w) = Some chan ->
  heap w !! chan = Some c ->
  next_per_commitment_point (config_REMOTE (set_force_closed c))
    <> current_per_commitment_point (config_REMOTE (set_force_closed c)) ->
  exists w',
    force_close_channel chan_id w
    = (Ok (if broadcast_transaction_raises (force_close_tx c) then None
           else Some (tx_txid (force_close_tx c))), w')
    /\ heap w' !! chan = Some (set_force_closed c)
    /\ storage w' !! "channels" = Some (SV_channels (channel_values w'))
    /\ set_force_closed c ∈ channel_values w'
    /\ effects w'
       = effects w ++ [Callback_channel chan; Callback_channels; Broadcast (force_close_tx c)].
Proof.
  intros Hget Hc Hne. unfold force_close_channel, bind at 1, gets. rewrite Hget.
  unfold bind at 1. rewrite (deref_allocated w chan c Hc).
  unfold bind at 1. cbn [modify].
  set (w1 := with_heap (<[chan := set_force_closed c]>) w).
  assert (Hc1 : heap w1 !! chan = Some (set_force_closed c)) by apply lookup_insert_eq.
  unfold bind at 1. rewrite (save_channel_fresh_point w1 chan _ Hc1 Hne).
  cbn [on_channels_updated emit modify bind].
  destruct (broadcast_transaction_raises (force_close_tx c));
    (eexists; split; [reflexivity|]; cbn;
     split; [apply lookup_insert_eq|]; split; [apply lookup_insert_eq|];
     split; [|by rewrite <- !app_assoc]).
  all: apply list_elem_of_omap; exists (channel_id (set_force_closed c), chan);
    cbn; split; [apply dict_set_elem | apply lookup_insert_eq].
Qed.

(** X17. [force_close_channel] broadcasts nothing when it cannot save: an
    unknown channel id raises KeyError with the worker unchanged, and a
    channel whose remote points coincide makes save_channel raise after the
    force-closed flag was set on the object, with nothing persisted, no
    callback and no broadcast. *)
Theorem force_close_channel_no_broadcast_without_save (w : LNWallet) (chan_id : bytes) :
  (dict_get chan_id (channels w) = None ->
     force_close_channel chan_id w = (Raise KeyError, w))
  /\ (forall chan c,
        dict_get chan_id (channels w) = Some chan ->
        heap w !! chan = Some c ->
        next_per_commitment_point (config_REMOTE (set_force_closed c))
          = current_per_commitment_point (config_REMOTE (set_force_closed c)) ->
        exists msg w',
          force_close_channel chan_id w = (Raise (Exception msg), w')
          /\ heap w' !! chan = Some (set_force_closed c)
          /\ effects w' = effects w
          /\ storage w' = storage w
          /\ storage_writes w' = storage_writes w
          /\ channels w' = channels w).
Proof.
  split.
  - intros Hget. unfold force_close_channel, bind at 1, gets. rewrite Hget. reflexivity.
  - intros chan c Hget Hc Hst. unfold force_close_channel, bind at 1, gets. rewrite Hget.
    unfold bind at 1. rewrite (deref_allocated w chan c Hc).
    unfold bind at 1. cbn [modify].
    set (w1 := with_heap (<[chan := set_force_closed c]>) w).
    assert (Hc1 : heap w1 !! chan = Some (set_force_closed c)) by apply lookup_insert_eq.
    unfold bind at 1. rewrite (save_channel_stale_point w1 chan _ Hc1 Hst).
    eexists _, w1. split; [reflexivity|]. split; [exact Hc1|]. repeat split.
Qed.

(** ** Expiring HTLCs *)

Lemma item_set_keys {K V : Type} `{EqDecision K} (k : K) (v : V) (d : list (K * V)) :
  (item_set k v d).*1 = if decide (k ∈ d.*1) then d.*1 else d.*1 ++ [k].
Proof.
  induction d as [|[k' v'] r IH]; cbn.
  - rewrite decide_False; [reflexivity | apply not_elem_of_nil].
  - destruct (decide (k' = k)) as [->|Hk]; cbn.
    + rewrite decide_True; [reflexivity | apply list_elem_of_here].
    + rewrite IH. destruct (decide (k ∈ r.*1)) as [Hin|Hin].
      * rewrite decide_True; [reflexivity | by apply list_elem_of_further].
      * rewrite decide_False; [reflexivity|].
        intros H'. apply elem_of_cons in H' as [->|H']; [by apply Hk | by apply Hin].
Qed.

Lemma item_set_NoDup {K V : Type} `{EqDecision K} (k : K) (v : V) (d : list (K * V)) :
  NoDup d.*1 -> NoDup (item_set k v d).*1.
Proof.
  intros Hnd. rewrite item_set_keys. destruct (decide (k ∈ d.*1)) as [Hin|Hin]; [exact Hnd|].
  apply NoDup_app. split; [exact Hnd|]. split; [|apply NoDup_singleton].
  intros x Hx Hx'. apply list_elem_of_singleton in Hx'. subst x. by apply Hin.
Qed.

Lemma item_set_elem {K V : Type} `{EqDecision K} (k : K) (v : V) (d : list (K * V))
    (k0 : K) (v0 : V) :
  (k0, v0) ∈ item_set k v d -> (k0, v0) = (k, v) \/ (k0, v0) ∈ d.
Proof.
  induction d as [|[k' v'] r IH]; cbn.
  - intros Hin. apply list_elem_of_singleton in Hin. by left.
  - destruct (decide (k' = k)) as [->|Hk].
    + intros Hin. apply elem_of_cons in Hin as [Hin|Hin]; [by left|].
      right. by apply list_elem_of_further.
    + intros Hin. apply elem_of_cons in Hin as [Hin|Hin].
      * right. rewrite Hin. apply list_elem_of_here.
      * destruct (IH Hin) as [Heq|Hr]; [by left | right; by apply list_elem_of_further].
Qed.

Section Reclaim.

Variable chan : Channel.

(** The dict has distinct keys and holds due HTLCs only. *)
Let reclaim_inv (d : HtlcDict) : Prop :=
  NoDup d.*1 /\ forall key htlc, (key, htlc) ∈ d -> htlc_due chan key htlc.

Lemma reclaim_received_inv (items : list (Z * UpdateAddHtlc.t)) :
  forall d, reclaim_inv d -> reclaim_inv (reclaim_received chan get_local_height d items).
Proof.
  induction items as [|[htlc_id htlc] rest IH]; intros d Hd; [exact Hd|].
  unfold reclaim_received. cbn [fold_left]. apply IH.
  destruct (was_htlc_preimage_released chan htlc_id REMOTE) eqn:Hrel; cbn [negb]; [|exact Hd].
  destruct (get_local_height <? _)%Z eqn:Hh; [exact Hd|].
  apply Z.ltb_ge in Hh. destruct Hd as [Hnd Hdue]. split.
  - by apply item_set_NoDup.
  - intros key h Hin. apply item_set_elem in Hin as [[= -> ->]|Hin]; [|by apply Hdue].
    split; [exact Hrel | exact Hh].
Qed.

Lemma reclaim_offered_inv (items : list (Z * UpdateAddHtlc.t)) :
  forall d, reclaim_inv d -> reclaim_inv (reclaim_offered get_local_height d items).
Proof.
  induction items as [|[htlc_id htlc] rest IH]; intros d Hd; [exact Hd|].
  unfold reclaim_offered. cbn [fold_left]. apply IH.
  destruct (get_local_height <? _)%Z eqn:Hh; [exact Hd|].
  apply Z.ltb_ge in Hh. destruct Hd as [Hnd Hdue]. split.
  - by apply item_set_NoDup.
  - intros key h Hin. apply item_set_elem in Hin as [[= -> ->]|Hin]; [|by apply Hdue].
    exact Hh.
Qed.

Lemma htlcs_we_could_reclaim_inv : reclaim_inv (htlcs_we_could_reclaim chan).
Proof.
  unfold htlcs_we_could_reclaim, received_views, offered_views. cbn [fold_left].
  repeat apply reclaim_offered_inv. repeat apply reclaim_received_inv.
  split; [apply NoDup_nil_2 | intros ? ? Hin; by apply not_elem_of_nil in Hin].
Qed.

Lemma reclaim_received_none_due (items : list (Z * UpdateAddHtlc.t)) (d : HtlcDict) :
  (forall htlc_id htlc, (htlc_id, htlc) ∈ items ->
     was_htlc_preimage_released chan htlc_id REMOTE = true ->
     (get_local_height
      < UpdateAddHtlc.cltv_expiry htlc - NBLOCK_DEADLINE_BEFORE_EXPIRY_FOR_RECEIVED_HTLCS)%Z) ->
  reclaim_received chan get_local_height d items = d.
Proof.
  induction items as [|[htlc_id htlc] rest IH]; intros Hnone; [reflexivity|].
  unfold reclaim_received. cbn [fold_left].
  destruct (was_htlc_preimage_released chan htlc_id REMOTE) eqn:Hrel; cbn [negb].
  - rewrite (proj2 (Z.ltb_lt _ _) (Hnone htlc_id htlc (list_elem_of_here _ _) Hrel)).
    apply IH. intros i h Hin. apply Hnone. by apply list_elem_of_further.
  - apply IH. intros i h Hin. apply Hnone. by apply list_elem_of_further.
Qed.

Lemma reclaim_offered_none_due (items : list (Z * UpdateAddHtlc.t)) (d : HtlcDict) :
  (forall htlc_id htlc, (htlc_id, htlc) ∈ items ->
     (get_local_height
      < UpdateAddHtlc.cltv_expiry htlc + NBLOCK_DEADLINE_AFTER_EXPIRY_FOR_OFFERED_HTLCS)%Z) ->
  reclaim_offered get_local_height d items = d.
Proof.
  induction items as [|[htlc_id htlc] rest IH]; intros Hnone; [reflexivity|].
  unfold reclaim_offered. cbn [fold_left].
  rewrite (proj2 (Z.ltb_lt _ _) (Hnone htlc_id htlc (list_elem_of_here _ _))).
  apply IH. intros i h Hin. apply (Hnone i h). by apply list_elem_of_further.
Qed.

End Reclaim.

(** X18. No force close while nothing is due: when in the three views of
    received HTLCs every HTLC whose preimage was released still has
    [cltv_expiry - deadline > local_height], and in the three views of
    offered HTLCs every HTLC has [cltv_expiry + deadline > local_height],
    no HTLC is collected and the function returns False, whatever the
    amounts are. *)
Theorem no_force_close_when_nothing_due (chan : Channel) :
  (forall sub dir ctn htlc_id htlc,
     (sub, dir, ctn) ∈ received_views chan ->
     (htlc_id, htlc) ∈ htlcs_by_direction chan sub dir ctn ->
     was_htlc_preimage_released chan htlc_id REMOTE = true ->
     (get_local_height
      < UpdateAddHtlc.cltv_expiry htlc - NBLOCK_DEADLINE_BEFORE_EXPIRY_FOR_RECEIVED_HTLCS)%Z) ->
  (forall sub dir ctn htlc_id htlc,
     (sub, dir, ctn) ∈ offered_views chan ->
     (htlc_id, htlc) ∈ htlcs_by_direction chan sub dir ctn ->
     (get_local_height
      < UpdateAddHtlc.cltv_expiry htlc + NBLOCK_DEADLINE_AFTER_EXPIRY_FOR_OFFERED_HTLCS)%Z) ->
  htlcs_we_could_reclaim chan = []
  /\ should_channel_be_closed_due_to_expiring_htlcs chan = false.
Proof.
  intros Hrecv Hoff.
  assert (Hd : htlcs_we_could_reclaim chan = []).
  { unfold htlcs_we_could_reclaim. unfold received_views in *. unfold offered_views in *.
    cbn [fold_left].
    rewrite !reclaim_received_none_due;
      [| intros i h Hin; eapply Hrecv; [|exact Hin];
         repeat (apply list_elem_of_here || apply list_elem_of_further) ..].
    rewrite !reclaim_offered_none_due;
      [| intros i h Hin; eapply (Hoff _ _ _ i h); [|exact Hin];
         repeat (apply list_elem_of_here || apply list_elem_of_further) ..].
    reflexivity. }
  split; [exact Hd|].
  unfold should_channel_be_closed_due_to_expiring_htlcs. rewrite Hd. cbn.
  apply Z.ltb_ge. lia.
Qed.

(** X19. The HTLCs the function counts are distinct by (direction,
    htlc_id), so an HTLC that shows up in several commitment views is counted
    once, and each of them is due; and the function returns True only when
    their value, in whole satoshis, exceeds both 500_000 and ten times the
    remote dust limit per counted HTLC. *)
Theorem force_close_threshold (chan : Channel) :
  let d := htlcs_we_could_reclaim chan in
  NoDup d.*1
  /\ (forall key htlc, (key, htlc) ∈ d -> htlc_due chan key htlc)
  /\ (should_channel_be_closed_due_to_expiring_htlcs chan = true ->
        (500000 < total_value_sat d)%Z
        /\ (Z.of_nat (length d) * 10 * dust_limit_sat (config_REMOTE chan)
            < total_value_sat d)%Z).
Proof.
  intros d. destruct (htlcs_we_could_reclaim_inv chan) as [Hnd Hdue].
  split; [exact Hnd|]. split; [exact Hdue|].
  unfold should_channel_be_closed_due_to_expiring_htlcs. fold d.
  intros H. apply Z.ltb_lt in H. lia.
Qed.

(** ** Peer addresses *)

Lemma first_ip_address_some (addr_list : list NodeAddress) (a : NodeAddress) :
  first_ip_address addr_list = Some a ->
  is_ip_address a.1.1 = true
  /\ exists before after,
       addr_list = before ++ a :: after
       /\ Forall (fun b : NodeAddress => is_ip_address b.1.1 = false) before.
Proof.
  induction addr_list as [|[[host port] ts] rest IH]; [discriminate|].
  cbn [first_ip_address]. destruct (is_ip_address host) eqn:Hip.
  - intros [= <-]. split; [exact Hip|]. exists [], rest. split; [reflexivity | constructor].
  - intros H. destruct (IH H) as (Ha & before & after & -> & Hall).
    split; [exact Ha|]. exists ((host, port, ts) :: before), after.
    split; [reflexivity | by constructor].
Qed.

Lemma first_ip_address_none (addr_list : list NodeAddress) :
  first_ip_address addr_list = None ->
  Forall (fun b : NodeAddress => is_ip_address b.1.1 = false) addr_list.
Proof.
  induction addr_list as [|[[host port] ts] rest IH]; [constructor|].
  cbn [first_ip_address]. destruct (is_ip_address host) eqn:Hip; [discriminate|].
  intros H. constructor; [exact Hip | by apply IH].
Qed.

(** X20. [choose_preferred_address] raises AssertionError on an empty list.
    On a non-empty list, with [random.choice] picking inside the list, it
    returns an entry of the list: the first one whose host is an IP address
    when there is one (every entry before it has a host that is not), and
    otherwise an entry none of whose hosts is an IP address. *)
Theorem choose_preferred_address_spec (addr_list : list NodeAddress) :
  (forall n, (0 < n)%nat -> (random_index n < n)%nat) ->
  (addr_list = [] -> choose_preferred_address addr_list = Raise AssertionError)
  /\ (addr_list <> [] ->
      exists a,
        choose_preferred_address addr_list = Ok a
        /\ a ∈ addr_list
        /\ (is_ip_address a.1.1 = true ->
            exists before after,
              addr_list = before ++ a :: after
              /\ Forall (fun b : NodeAddress => is_ip_address b.1.1 = false) before)
        /\ (is_ip_address a.1.1 = false ->
            Forall (fun b : NodeAddress => is_ip_address b.1.1 = false) addr_list)).
Proof.
  intros Hrand. split; [intros ->; reflexivity|].
  intros Hne. unfold choose_preferred_address.
  destruct addr_list as [|a0 rest]; [contradiction|].
  change (length (a0 :: rest) <? 1)%nat with false. cbv iota.
  destruct (first_ip_address (a0 :: rest)) as [a|] eqn:Hfirst.
  - destruct (first_ip_address_some _ _ Hfirst) as (Hip & before & after & Heq & Hall).
    exists a. split; [reflexivity|].
    split; [rewrite Heq; apply elem_of_app; right; apply list_elem_of_here|].
    split; [intros _; by exists before, after | congruence].
  - pose proof (first_ip_address_none _ Hfirst) as Hall.
    assert (Hlt : (random_index (length (a0 :: rest)) < length (a0 :: rest))%nat)
      by (apply Hrand; cbn; lia).
    destruct (lookup_lt_is_Some_2 _ _ Hlt) as [choice Hchoice]. rewrite Hchoice.
    exists choice. split; [reflexivity|].
    split; [by eapply list_elem_of_lookup_2|].
    split; [|intros _; exact Hall].
    intros Hip. rewrite Forall_forall in Hall.
    rewrite (Hall choice) in Hip; [discriminate | by eapply list_elem_of_lookup_2].
Qed.

(** ** Gossip: the set of unknown channel ids *)

Lemma elements_take_drop_NoDup (unknown_ids : gset bytes) (n : nat) :
  NoDup (take n (elements unknown_ids))
  /\ NoDup (drop n (elements unknown_ids))
  /\ (forall x, x ∈ take n (elements unknown_ids) ->
                 x ∉ drop n (elements unknown_ids)).
Proof.
  pose proof (NoDup_elements unknown_ids) as Hnd.
  rewrite <- (take_drop n (elements unknown_ids)) in Hnd.
  apply NoDup_app in Hnd as (Hnd1 & Hdisj & Hnd2).
  split; [exact Hnd1|]. split; [exact Hnd2 | exact Hdisj].
Qed.

Lemma get_ids_to_query_size (unknown_ids : gset bytes) :
  size (get_ids_to_query unknown_ids).2 = (size unknown_ids - 500)%nat.
Proof.
  unfold get_ids_to_query. cbn [snd].
  destruct (elements_take_drop_NoDup unknown_ids 500) as (_ & Hnd2 & _).
  rewrite size_list_to_set by exact Hnd2. rewrite length_drop. reflexivity.
Qed.

(** X21. [get_ids_to_query] hands out at most 500 ids, without repeats,
    and splits the set: every unknown id is either handed out or kept, never
    both, and the kept set is smaller by the number handed out. *)
Theorem get_ids_to_query_splits (unknown_ids : gset bytes) :
  let '(l, rest) := get_ids_to_query unknown_ids in
  length l = Nat.min 500 (size unknown_ids)
  /\ NoDup l
  /\ (forall x, x ∈ unknown_ids <-> x ∈ l \/ x ∈ rest)
  /\ (forall x, x ∈ l -> x ∉ rest)
  /\ size rest = (size unknown_ids - 500)%nat.
Proof.
  pose proof (get_ids_to_query_size unknown_ids) as Hsize.
  unfold get_ids_to_query in *. cbn [snd] in Hsize.
  destruct (elements_take_drop_NoDup unknown_ids 500) as (Hnd1 & Hnd2 & Hdisj).
  split; [rewrite length_take; reflexivity|]. split; [exact Hnd1|].
  split; [|split; [|exact Hsize]].
  - intros x. rewrite <- elem_of_elements.
    rewrite <- (take_drop 500 (elements unknown_ids)) at 1.
    rewrite elem_of_app, elem_of_list_to_set. reflexivity.
  - intros x Hx Hrest. apply elem_of_list_to_set in Hrest. by apply (Hdisj x).
Qed.

(** X22. Repeated calls drain the set: after [k] calls of
    [get_ids_to_query], [size - 500 * k] unknown ids are left, so
    [ceil(size / 500)] calls empty the set. *)
Theorem get_ids_to_query_drains (unknown_ids : gset bytes) (k : nat) :
  let after := Nat.iter k (fun s => (get_ids_to_query s).2) unknown_ids in
  size after = (size unknown_ids - 500 * k)%nat
  /\ ((size unknown_ids <= 500 * k)%nat -> after = ∅).
Proof.
  cbn zeta.
  assert (Hsize : size (Nat.iter k (fun s => (get_ids_to_query s).2) unknown_ids)
                  = (size unknown_ids - 500 * k)%nat).
  { induction k as [|k IH]; [cbn; lia|].
    rewrite Nat.iter_succ. cbv beta. rewrite get_ids_to_query_size, IH. lia. }
  split; [exact Hsize|].
  intros Hle. apply leibniz_equiv, size_empty_inv. rewrite Hsize. lia.
Qed.

(** X23. [add_new_ids] only grows the set, never adds an id the channel
    database knows, makes every given id known or pending, and adding the
    same ids again changes nothing. *)
Theorem add_new_ids_spec (ids : list bytes) (unknown_ids : gset bytes) :
  let s' := add_new_ids ids unknown_ids in
  unknown_ids ⊆ s'
  /\ (forall x, x ∈ s' -> x ∉ unknown_ids -> x ∈ ids /\ x ∉ get_channel_ids)
  /\ (forall x, x ∈ ids -> x ∈ get_channel_ids \/ x ∈ s')
  /\ add_new_ids ids s' = s'.
Proof.
  unfold add_new_ids. cbn zeta. split; [|split; [|split]].
  - intros x Hx. apply elem_of_union. by left.
  - intros x Hx Hnot. apply elem_of_union in Hx as [Hx|Hx]; [contradiction|].
    apply elem_of_difference in Hx as [Hin Hout].
    rewrite elem_of_list_to_set in Hin. rewrite elem_of_list_to_set in Hout. by split.
  - intros x Hx. destruct (decide (x ∈ get_channel_ids)) as [Hk|Hk]; [by left|].
    right. apply elem_of_union. right. apply elem_of_difference.
    rewrite !elem_of_list_to_set. by split.
  - apply leibniz_equiv. intros x. rewrite !elem_of_union.
    split; [intros [Hx|Hx]; [exact Hx | by right] | intros Hx; by left].
Qed.

(** ** The listen address *)

Lemma rsplit2_length (s : string) :
  length (rsplit2 s) = Nat.min (S (count_char ":" s)) 3.
Proof.
  unfold rsplit2. pose proof (split_on_length ":" s) as Hlen.
  destruct (length (split_on ":" s) <=? 3)%nat eqn:Hle.
  - apply Nat.leb_le in Hle. lia.
  - apply Nat.leb_gt in Hle. cbn [length]. rewrite length_drop. lia.
Qed.

(** X24. A configured listen address is accepted only if it contains
    exactly one ':': with none, or with two or more (as in every bracketed
    IPv6 address with a port), unpacking [listen_addr.rsplit(':', 2)] raises
    ValueError and no server is started. *)
Theorem maybe_listen_needs_one_colon (listen_addr : string) :
  listen_addr <> EmptyString ->
  count_char ":" listen_addr <> 1%nat ->
  maybe_listen (Some listen_addr) = Raise ValueError.
Proof.
  intros Hne Hcount. pose proof (rsplit2_length listen_addr) as Hlen.
  destruct listen_addr as [|a r]; [contradiction|].
  unfold maybe_listen.
  destruct (rsplit2 (String a r)) as [|x [|y [|z l]]]; cbn [length] in Hlen;
    try reflexivity.
  lia.
Qed.

(** ** Satochip 2FA: the polling loop *)

Section SatochipPolling.

Import Satochip.

Variable sha256_hexdigest : string -> string.
Variable b64decode : string -> option bytes.
Variables (d : gmap string Value) (id_2FA : string) (msg : Value).
Hypothesis has_id : d !! "id_2FA" = Some (VStr id_2FA).
Hypothesis has_msg : d !! "msg_encrypt" = Some msg.

Let replyhash := sha256_hexdigest id_2FA.
Let posted : list Action := [Delete id_2FA; Delete replyhash; Put id_2FA msg].

Lemma sleeps_app (t1 t2 : list Action) : sleeps (t1 ++ t2) = (sleeps t1 + sleeps t2)%nat.
Proof.
  induction t1 as [|a t1 IH]; [reflexivity|].
  destruct a; cbn; rewrite IH; reflexivity.
Qed.

Lemma polls_app (t1 t2 : list Action) : polls (t1 ++ t2) = (polls t1 + polls t2)%nat.
Proof.
  induction t1 as [|a t1 IH]; [reflexivity|].
  destruct a; cbn; rewrite IH; reflexivity.
Qed.

Lemma do_challenge_response_posted (a b c : option string) (rs : list Response) :
  do_challenge_response sha256_hexdigest b64decode d
    (Returns a :: Returns b :: Returns c :: rs)
  = poll b64decode replyhash d 180 None posted rs.
Proof.
  unfold do_challenge_response. rewrite has_id, has_msg. reflexivity.
Qed.

Lemma poll_while_failing (n : nat) :
  forall (timeout : Z) (reply : option string) (trace : list Action),
    (0 < timeout)%Z ->
    poll b64decode replyhash d timeout reply trace (replicate n Fails)
    = (Polling, trace ++ replicate n (Get replyhash)).
Proof.
  induction n as [|n IH]; intros timeout reply trace Hpos;
    cbn [replicate poll]; rewrite (proj2 (Z.leb_gt _ _) Hpos).
  - by rewrite app_nil_r.
  - rewrite IH by exact Hpos. by rewrite <- app_assoc.
Qed.

(** X25. While the server call raises, the loop neither sleeps nor counts
    down: after the challenge is posted, [n] failing polls in a row are all
    made back to back and the call is still polling with its timeout intact,
    for every [n]. An unreachable server is retried without pause and
    without limit. *)
Theorem challenge_retries_without_pause (a b c : option string) (n : nat) :
  let r := do_challenge_response sha256_hexdigest b64decode d
             (Returns a :: Returns b :: Returns c :: replicate n Fails) in
  r = (Polling, posted ++ replicate n (Get replyhash))
  /\ sleeps r.2 = 0%nat
  /\ polls r.2 = n.
Proof.
  cbn zeta. rewrite do_challenge_response_posted, poll_while_failing by lia.
  split; [reflexivity|]. cbn [snd]. rewrite sleeps_app, polls_app. split.
  - induction n as [|n IH]; [reflexivity | exact IH].
  - induction n as [|n IH]; [reflexivity | cbn in IH |- *; by rewrite IH].
Qed.

Lemma poll_unanswered (rs : list Response) :
  forall (n : nat) (trace : list Action),
    Forall (fun r => r = Fails \/ r = Returns None) rs ->
    (n <= answers rs)%nat ->
    exists trace',
      poll b64decode replyhash d (10 * Z.of_nat n) None trace rs
      = (Done (<["reply_encrypt" := VNone]> d), trace')
      /\ sleeps trace' = (sleeps trace + n)%nat.
Proof.
  induction rs as [|r rs IH]; intros n trace Hall Hn.
  - cbn in Hn. assert (n = 0%nat) as -> by lia. cbn. eexists. split; [reflexivity | lia].
  - destruct n as [|n].
    + destruct r; cbn; (eexists; split; [reflexivity | lia]).
    + apply Forall_cons in Hall as [Hr Hall].
      cbn [poll]. rewrite (proj2 (Z.leb_gt _ _)) by lia.
      destruct Hr as [-> | ->].
      * destruct (IH (S n) (trace ++ [Get replyhash]) Hall Hn) as (trace' & Hp & Hs).
        exists trace'. split; [exact Hp|]. rewrite Hs, sleeps_app. cbn. lia.
      * cbn [reply_truthy]. cbn in Hn.
        replace (10 * Z.of_nat (S n) - 10)%Z with (10 * Z.of_nat n)%Z by lia.
        destruct (IH n ((trace ++ [Get replyhash]) ++ [Sleep 10]) Hall) as (trace' & Hp & Hs);
          [lia|].
        exists trace'. split; [exact Hp|]. rewrite Hs, !sleeps_app. cbn. lia.
Qed.

(** X26. Timeout: when every poll that gets through is answered with None,
    the call gives up after the 18th such answer, however many failing
    polls lie in between: it has slept 18 times 10 seconds and sets
    [d['reply_encrypt']] to None. *)
Theorem challenge_times_out (a b c : option string) (rs : list Response) :
  Forall (fun r => r = Fails \/ r = Returns None) rs ->
  (18 <= answers rs)%nat ->
  exists trace,
    do_challenge_response sha256_hexdigest b64decode d
      (Returns a :: Returns b :: Returns c :: rs)
    = (Done (<["reply_encrypt" := VNone]> d), trace)
    /\ sleeps trace = 18%nat.
Proof.
  intros Hall Hn. rewrite do_challenge_response_posted.
  destruct (poll_unanswered rs 18 posted Hall Hn) as (trace & Hp & Hs).
  exists trace. split; [exact Hp | exact Hs].
Qed.

Lemma poll_answered (pre : list Response) (s : string) (b' : bytes)
    (x : option string) (rest : list Response) :
  forall (n : nat) (trace : list Action),
    Forall (fun r => r = Fails \/ r = Returns None) pre ->
    (answers pre < n)%nat ->
    s <> EmptyString ->
    b64decode s = Some b' ->
    exists trace',
      poll b64decode replyhash d (10 * Z.of_nat n) None trace
        (pre ++ Returns (Some s) :: Returns x :: rest)
      = (Done (<["reply_encrypt" := VBytes b']> d), trace' ++ [Delete replyhash])
      /\ sleeps trace' = (sleeps trace + answers pre)%nat.
Proof.
  induction pre as [|r pre IH]; intros n trace Hall Hn Hs Hb.
  - cbn [app poll]. rewrite (proj2 (Z.leb_gt _ _)) by lia.
    destruct s as [|ch s']; [contradiction|]. cbn [reply_truthy from_option id].
    rewrite Hb. eexists. split; [reflexivity|]. rewrite sleeps_app. cbn. lia.
  - apply Forall_cons in Hall as [Hr Hall].
    cbn [app poll]. rewrite (proj2 (Z.leb_gt _ _)) by lia.
    destruct Hr as [-> | ->].
    + cbn in Hn. destruct (IH n (trace ++ [Get replyhash]) Hall Hn Hs Hb) as (trace' & Hp & Hsl).
      exists trace'. split; [exact Hp|]. rewrite Hsl, sleeps_app. cbn. lia.
    + cbn [reply_truthy]. cbn in Hn. destruct n as [|n]; [lia|].
      replace (10 * Z.of_nat (S n) - 10)%Z with (10 * Z.of_nat n)%Z by lia.
      destruct (IH n ((trace ++ [Get replyhash]) ++ [Sleep 10]) Hall) as (trace' & Hp & Hsl);
        [lia | exact Hs | exact Hb |].
      exists trace'. split; [exact Hp|]. rewrite Hsl, !sleeps_app. cbn. lia.
Qed.

(** X27. A reply that arrives before the 18th unanswered poll ends the
    call at once: [d['reply_encrypt']] is the base64-decoded reply, the
    reply is then deleted from the server as the last call, and the call
    has slept once per unanswered poll before it. *)
Theorem challenge_reply_received (a b c : option string) (pre : list Response)
    (s : string) (b' : bytes) (x : option string) (rest : list Response) :
  Forall (fun r => r = Fails \/ r = Returns None) pre ->
  (answers pre < 18)%nat ->
  s <> EmptyString ->
  b64decode s = Some b' ->
  exists trace,
    do_challenge_response sha256_hexdigest b64decode d
      (Returns a :: Returns b :: Returns c :: pre ++ Returns (Some s) :: Returns x :: rest)
    = (Done (<["reply_encrypt" := VBytes b']> d), trace ++ [Delete replyhash])
    /\ sleeps trace = answers pre.
Proof.
  intros Hall Hn Hs Hb. rewrite do_challenge_response_posted.
  destruct (poll_answered pre s b' x rest 18 posted Hall Hn Hs Hb) as (trace & Hp & Hsl).
  exists trace. split; [exact Hp | exact Hsl].
Qed.

Lemma poll_empty_replies (rs : list Response) :
  forall (n : nat) (reply : option string) (trace : list Action),
    Forall (fun r => r = Fails \/ r = Returns (Some EmptyString)) rs ->
    (n <= answers rs)%nat ->
    (n = 0%nat -> reply = Some EmptyString) ->
    poll b64decode replyhash d (10 * Z.of_nat n) reply trace rs
    = (Done d, (poll b64decode replyhash d (10 * Z.of_nat n) reply trace rs).2).
Proof.
  induction rs as [|r rs IH]; intros n reply trace Hall Hn Hreply.
  - cbn in Hn. assert (n = 0%nat) as -> by lia. cbn. rewrite (Hreply eq_refl). reflexivity.
  - destruct n as [|n].
    + rewrite (Hreply eq_refl). destruct r; reflexivity.
    + apply Forall_cons in Hall as [Hr Hall].
      cbn [poll]. rewrite (proj2 (Z.leb_gt _ _)) by lia.
      destruct Hr as [-> | ->].
      * apply IH; [exact Hall | exact Hn | discriminate].
      * cbn [reply_truthy]. cbn in Hn.
        replace (10 * Z.of_nat (S n) - 10)%Z with (10 * Z.of_nat n)%Z by lia.
        apply IH; [exact Hall | lia | reflexivity].
Qed.

(** X28. Only a None reply is turned into [d['reply_encrypt'] = None]:
    when the polls that get through are answered with the empty string,
    which counts as no reply, the call returns after the 18th one with [d]
    exactly as it was, so a [reply_encrypt] key is neither set nor reset. *)
Theorem challenge_empty_replies_leave_d (a b c : option string) (rs : list Response) :
  Forall (fun r => r = Fails \/ r = Returns (Some EmptyString)) rs ->
  (18 <= answers rs)%nat ->
  (do_challenge_response sha256_hexdigest b64decode d
     (Returns a :: Returns b :: Returns c :: rs)).1 = Done d.
Proof.
  intros Hall Hn. rewrite do_challenge_response_posted.
  change 180%Z with (10 * Z.of_nat 18)%Z.
  rewrite (poll_empty_replies rs 18 None posted Hall Hn); [reflexivity | discriminate].
Qed.

End SatochipPolling.

(** ** Creating a request *)

(** X29. A request that can be built is stored whole: when the hints are
    computed, lnencode succeeds and the wallet's add_payment_request returns
    without touching the worker, [_add_request_coro] returns the hex of the
    hash of the preimage it drew; afterwards [get_preimage] gives that
    preimage back for the hash, the invoice is stored as
    (amount_sat, RECEIVED, PR_UNPAID), the label is set, and a preimage
    store that was consistent still is. The preimage check of save_preimage
    cannot fail here. *)
Theorem add_request_stores (w : LNWallet) (amount_sat : option Z) (message : string)
    (expiry : Z) (hints : list Tag) (invoice : string) :
  (forall req w0, add_payment_request req w0 = (Ok tt, w0)) ->
  _calc_routing_hints_for_invoice amount_sat w = (Ok hints, w) ->
  lnencode (sha256 urandom32)
    (if truthy amount_sat
     then Some (inject_Z (default 0%Z amount_sat) / inject_Z COIN)%Q else None)
    ([Tag_d message; Tag_c MIN_FINAL_CLTV_EXPIRY_FOR_INVOICE; Tag_x expiry] ++ hints) now
    = Ok invoice ->
  let key := bh2u (sha256 urandom32) in
  exists w',
    _add_request_coro amount_sat message expiry w = (Ok key, w')
    /\ get_preimage (sha256 urandom32) w' = (Ok urandom32, w')
    /\ invoices w' !! key = Some (amount_sat, RECEIVED, PR_UNPAID)
    /\ effects w' = effects w ++ [Wallet_set_label key message]
    /\ (preimages_consistent w -> preimages_consistent w').
Proof.
  intros Hwallet Hhints Hencode key.
  unfold _add_request_coro. unfold bind at 1. rewrite Hhints.
  unfold bind at 1, lift. rewrite Hencode.
  unfold bind at 1.
  destruct (save_preimage_accepts w (sha256 urandom32) urandom32 eq_refl) as (w1 & Hsave & Hpre).
  rewrite Hsave. unfold bind at 1. rewrite storage_after_save_invoice_info.
  unfold bind at 1. rewrite Hwallet. cbn [bind emit modify ret].
  eexists. split; [reflexivity|]. cbn.
  split; [|split; [|split]].
  - unfold get_preimage, bind, gets. cbn. rewrite Hpre, lookup_insert_eq, bfh_bh2u. reflexivity.
  - apply lookup_insert_eq.
  - assert (He : effects w1 = effects w); [|by rewrite He].
    unfold save_preimage in Hsave. rewrite bool_decide_eq_true_2 in Hsave by reflexivity.
    injection Hsave as <-. reflexivity.
  - intros Hcons k v. cbn. rewrite Hpre. intros Hkv.
    destruct (decide (bh2u (sha256 urandom32) = k)) as [<-|Hk].
    + rewrite lookup_insert_eq in Hkv. injection Hkv as <-.
      by exists (sha256 urandom32), urandom32.
    + rewrite lookup_insert_ne in Hkv by done. by apply Hcons.
Qed.

(** X30. A request that cannot be built leaves no trace: when the hint
    computation raises (an OPEN channel without short_channel_id) or
    lnencode raises, [_add_request_coro] raises that error before anything
    is stored, and the worker is unchanged. *)
Theorem add_request_fails_clean (w : LNWallet) (amount_sat : option Z) (message : string)
    (expiry : Z) (e : Exn) :
  (_calc_routing_hints_for_invoice amount_sat w = (Raise e, w)
   \/ exists hints,
        _calc_routing_hints_for_invoice amount_sat w = (Ok hints, w)
        /\ lnencode (sha256 urandom32)
             (if truthy amount_sat
              then Some (inject_Z (default 0%Z amount_sat) / inject_Z COIN)%Q else None)
             ([Tag_d message; Tag_c MIN_FINAL_CLTV_EXPIRY_FOR_INVOICE; Tag_x expiry] ++ hints)
             now
           = Raise e) ->
  _add_request_coro amount_sat message expiry w = (Raise e, w).
Proof.
  intros [Hhints | (hints & Hhints & Hencode)];
    unfold _add_request_coro; unfold bind at 1; rewrite Hhints; [reflexivity|].
  unfold bind at 1, lift. rewrite Hencode. reflexivity.
Qed.

End Worker.

(** * The statements on concrete inputs *)

Import Examples.

Example bh2u_hash1 : bh2u hash1 = "9f86d081".
Proof. reflexivity. Qed.

Example bfh_mixed_case : bfh "9F86d081" = Some hash1.
Proof. reflexivity. Qed.

Example bfh_odd_length : bfh "9f8" = None.
Proof. reflexivity. Qed.

Example split_on_outpoint : split_on ":" "f00d:0" = ["f00d"; "0"].
Proof. reflexivity. Qed.

(** A sweep behind a CSV delay of 144 with 3 confirmations is labelled and
    registered as a future transaction, 141 blocks ahead. *)
Example try_redeem_csv_pending :
  let tx := mkTransaction "c0de" [] in
  effects (try_redeem get_tx_height_conf 120 "f00d:0"
             (SweepInfo.mk "our_ctx_to_local" (Some 144%Z) None (Some tx)) empty_wallet).2
  = [Wallet_set_label "c0de" "our_ctx_to_local"; Wallet_add_future_tx tx (Some 141%Z)].
Proof. reflexivity. Qed.

(** With the CLTV expiry reached and no CSV delay the sweep is broadcast. *)
Example try_redeem_cltv_reached :
  let tx := mkTransaction "c0de" [] in
  effects (try_redeem get_tx_height_conf 120 "f00d:0"
             (SweepInfo.mk "our_ctx_htlc" None (Some 120%Z) (Some tx)) empty_wallet).2
  = [Wallet_set_label "c0de" "our_ctx_htlc"; Broadcast tx].
Proof. reflexivity. Qed.

(** Without an amount both the OPEN channel is hinted and the OPENING one is
    skipped; asking for more than the remote balance leaves no hint. *)
Example routing_hints_no_amount :
  (_calc_routing_hints_for_invoice get_channel_info get_policy_for_node None wallet_s6).1
  = Ok [Tag_r [(node_a, scid_open, 0, 0, 1)%Z]].
Proof. vm_compute. reflexivity. Qed.

Example routing_hints_too_large :
  (_calc_routing_hints_for_invoice get_channel_info get_policy_for_node
     (Some 200001%Z) wallet_s6).1 = Ok [].
Proof. vm_compute. reflexivity. Qed.

Example scid_open_bytes : scid_open = [x00; x00; x64; x00; x00; x01; x00; x00].
Proof. reflexivity. Qed.

(** An invoice without amount is rejected unless the caller gives one. *)
Example check_invoice_missing_amount :
  _check_invoice (fun _ => Some (set_amount addr1 None)) is_expired
    get_min_final_cltv_expiry COIN "lnltc1sample" None
  = Raise (InvoiceError "Missing amount").
Proof. reflexivity. Qed.

Example check_invoice_amount_given :
  _check_invoice (fun _ => Some (set_amount addr1 None)) is_expired
    get_min_final_cltv_expiry COIN "lnltc1sample" (Some 100000%Z)
  = Ok (set_amount addr1 (Some (inject_Z 100000 / inject_Z 100000000)%Q)).
Proof. reflexivity. Qed.

(** C10 on the empty worker. *)
Lemma delete_invoice_missing_witness :
  invoices empty_wallet !! "9f86d081" = None
  /\ delete_invoice "9f86d081" empty_wallet = (Ok tt, empty_wallet).
Proof.
  split; [reflexivity|].
  apply delete_invoice_missing. reflexivity.
Defined.

(** C6 as written fails: setting PR_PAID on a received invoice that is
    already PR_PAID fires the notification again, although the invoice did
    not newly become paid. *)
Lemma set_invoice_status_already_paid_fires :
  ~ (payment_received_fired hash1 PR_PAID wallet_paid = true <->
       exists amt old,
         invoices wallet_paid !! bh2u hash1 = Some (amt, RECEIVED, old)
         /\ old <> PR_PAID /\ PR_PAID = PR_PAID).
Proof.
  intros [Hfired _].
  destruct (Hfired eq_refl) as (amt & old & Hl & Hold & _).
  vm_compute in Hl. congruence.
Qed.

(** C4 on the channel with a stale remote point. *)
Lemma save_channel_stale_point_raises_witness :
  heap wallet_stale !! 0%nat = Some chan_stale
  /\ next_per_commitment_point (config_REMOTE chan_stale)
     = current_per_commitment_point (config_REMOTE chan_stale)
  /\ exists msg w',
       save_channel 0 wallet_stale = (Raise (Exception msg), w')
       /\ channels w' = channels wallet_stale
       /\ storage w' !! "channels" = storage wallet_stale !! "channels"
       /\ storage_writes w' = storage_writes wallet_stale
       /\ w' = wallet_stale.
Proof.
  split; [reflexivity|]. split; [reflexivity|].
  apply (save_channel_stale_point_raises wallet_stale 0 chan_stale); reflexivity.
Defined.

(** C5 on a dust sweep of output 0. *)
Lemma try_redeem_dust_raises_witness :
  split_on ":" "f00d:0" = ["f00d"; "0"]
  /\ SweepInfo.gen_tx dust_sweep = None
  /\ try_redeem get_tx_height_conf 120 "f00d:0" dust_sweep empty_wallet
     = (Raise AttributeError, empty_wallet).
Proof.
  split; [reflexivity|]. split; [reflexivity|].
  apply (try_redeem_dust_raises get_tx_height_conf 120 empty_wallet "f00d:0" "f00d" "0");
    reflexivity.
Defined.



(** C8 on scenario S6: one hint, for the OPEN channel, with the fallback
    fields. *)
Lemma calc_routing_hints_for_invoice_spec_witness :
  _calc_routing_hints_for_invoice get_channel_info get_policy_for_node
    (Some 100000%Z) wallet_s6
  = (Ok [Tag_r [(node_a, scid_open, 0, 0, 1)%Z]], wallet_s6).
Proof.
  destruct (calc_routing_hints_for_invoice_spec get_channel_info get_policy_for_node
              wallet_s6 (Some 100000%Z)) as [Hrun _].
  - intros c Hin Hel.
    assert (Hvals : channel_values wallet_s6 = [chan_open; chan_fresh])
      by (vm_compute; reflexivity).
    rewrite Hvals in Hin.
    apply elem_of_cons in Hin as [->|Hin]; [by eexists|].
    apply elem_of_cons in Hin as [->|Hin]; [discriminate Hel|].
    by apply not_elem_of_nil in Hin.
  - rewrite Hrun. vm_compute. reflexivity.
Defined.

(** C9 on the sample invoice. *)
Lemma check_invoice_raises_iff_witness :
  lndecode "lnltc1m1sample" = Some addr1
  /\ _check_invoice lndecode is_expired get_min_final_cltv_expiry COIN
       "lnltc1m1sample" None = Ok addr1.
Proof.
  split; [reflexivity|].
  apply (check_invoice_raises_iff lndecode is_expired get_min_final_cltv_expiry COIN
           "lnltc1m1sample" None addr1 eq_refl).
  intros [H|[H|H]]; [discriminate H | discriminate H | vm_compute in H; discriminate H].
Defined.


(** _pay hands such an invoice on when the caller names the amount:
    _check_invoice accepts it, and the first attempt ends in the TypeError. *)
Example pay_invoice_without_amount :
  _check_invoice Scenarios.lndecode is_expired get_min_final_cltv_expiry COIN
    "lnltc1sample" (Some 100000%Z)
  = Ok (set_amount Scenarios.invoice_open_amount (Some (inject_Z 100000 / inject_Z 100000000)%Q))
  /\ (_pay Scenarios.lndecode is_expired get_min_final_cltv_expiry get_description COIN 20
        Scenarios.find_path_for_payment Scenarios.create_route_from_path
        Scenarios.is_route_sane_to_use get_routing_policy_for_channel Scenarios.node_self
        Scenarios.shuffle peer_connected peer_pay await_pending_payment
        "lnltc1sample" (Some 100000%Z) 1 Scenarios.wallet_open).1
     = Raise TypeError.
Proof. split; reflexivity. Qed.


(** C2 on the paid invoice. *)
Lemma pay_rejects_paid_invoice_witness :
  lndecode "lnltc1m1sample" = Some addr1
  /\ invoices wallet_paid !! bh2u (paymenthash addr1) = Some (Some 100000%Z, RECEIVED, PR_PAID)
  /\ _pay lndecode is_expired get_min_final_cltv_expiry get_description COIN 20
       find_path_for_payment create_route_from_path is_route_sane_to_use
       get_routing_policy_for_channel node_a shuffle peer_connected peer_pay
       await_pending_payment "lnltc1m1sample" None 1 wallet_paid
     = (Raise (PaymentFailure "This invoice has been paid already"), wallet_paid).
Proof.
  split; [reflexivity|]. split; [vm_compute; reflexivity|].
  apply (pay_rejects_paid_invoice lndecode is_expired get_min_final_cltv_expiry
           get_description COIN 20 find_path_for_payment create_route_from_path
           is_route_sane_to_use get_routing_policy_for_channel node_a shuffle
           peer_connected peer_pay await_pending_payment wallet_paid
           "lnltc1m1sample" None 1 addr1 (Some 100000%Z) RECEIVED).
  - reflexivity.
  - vm_compute. reflexivity.
Defined.

(** * The further properties on concrete inputs *)

Import MoreExamples.

Example item_set_overwrites :
  item_set (RECEIVED, 0%Z) 2%nat [((RECEIVED, 0%Z), 1%nat); ((SENT, 0%Z), 1%nat)]
  = [((RECEIVED, 0%Z), 2%nat); ((SENT, 0%Z), 1%nat)].
Proof. reflexivity. Qed.

Example rsplit2_ipv6 : rsplit2 "[2001:db8::1]:9735" = ["[2001:db8:"; "1]"; "9735"].
Proof. reflexivity. Qed.

Example maybe_listen_ipv4 :
  maybe_listen int_of_string (Some "192.168.1.2:9735") = Ok (Some ("192.168.1.2", 9735%Z)).
Proof. reflexivity. Qed.

(** The HTLC of 600_000 sat, once its expiry is within the deadline, is
    counted once although every view shows it, and it is worth a force
    close. *)
Example expiring_htlc_forces_close :
  htlcs_we_could_reclaim 900 get_latest_ctn get_oldest_unrevoked_ctn htlcs_by_direction
    was_htlc_preimage_released 144 1 chan_open
  = [((RECEIVED, 0%Z), htlc1)]
  /\ should_channel_be_closed_due_to_expiring_htlcs 900 get_latest_ctn
       get_oldest_unrevoked_ctn htlcs_by_direction was_htlc_preimage_released 144 1 chan_open
     = true.
Proof. split; reflexivity. Qed.

(** X2 with the stand-in hash. *)
Lemma save_preimage_roundtrip_witness :
  sha256 preimage1 = hash1
  /\ get_preimage hash1 (save_preimage sha256 hash1 preimage1 empty_wallet).2
     = (Ok preimage1, (save_preimage sha256 hash1 preimage1 empty_wallet).2).
Proof.
  split; [reflexivity|].
  apply (save_preimage_roundtrip sha256 hash1 preimage1 empty_wallet). reflexivity.
Defined.

(** X3 on the paid invoice. *)
Lemma delete_invoice_present_witness :
  invoices wallet_paid !! "9f86d081" = Some (Some 100000%Z, RECEIVED, PR_PAID)
  /\ invoices (delete_invoice "9f86d081" wallet_paid).2 !! "9f86d081" = None
  /\ storage (delete_invoice "9f86d081" wallet_paid).2 !! "lightning_invoices2" = None.
Proof.
  assert (Hstored : invoices wallet_paid !! "9f86d081" = Some (Some 100000%Z, RECEIVED, PR_PAID))
    by (vm_compute; reflexivity).
  split; [exact Hstored|].
  destruct (delete_invoice_present "9f86d081" _ wallet_paid Hstored)
    as (_ & Hgone & _ & _ & Hkey2 & _).
  split; [exact Hgone | exact Hkey2].
Defined.

(** X5 on the channel with distinct remote points. *)
Lemma save_channel_stores_witness :
  heap wallet_fresh !! 0%nat = Some chan_fresh
  /\ next_per_commitment_point (config_REMOTE chan_fresh)
     <> current_per_commitment_point (config_REMOTE chan_fresh)
  /\ dict_get (channel_id chan_fresh) (channels (save_channel 0 wallet_fresh).2) = Some 0%nat.
Proof.
  assert (Hne : next_per_commitment_point (config_REMOTE chan_fresh)
                <> current_per_commitment_point (config_REMOTE chan_fresh)) by discriminate.
  split; [reflexivity|]. split; [exact Hne|].
  destruct (save_channel_stores wallet_fresh 0 chan_fresh eq_refl Hne) as (_ & Hget & _).
  exact Hget.
Defined.

(** X7 on an expired invoice for a hash we had issued ourselves: the
    record is replaced by a SENT one although the payment is refused. *)
Lemma pay_records_before_check_witness :
  exists w',
    _pay lndecode is_expired_yes get_min_final_cltv_expiry get_description COIN 20
      find_path_for_payment create_route_from_path is_route_sane_to_use
      get_routing_policy_for_channel node_a shuffle peer_connected peer_pay
      await_pending_payment "lnltc1m1sample" None 1 wallet_unpaid
    = (Raise (InvoiceError "This invoice has expired"), w')
    /\ invoices w' !! bh2u hash1 = Some (Some 100000%Z, SENT, PR_UNPAID).
Proof.
  destruct (pay_records_before_check lndecode is_expired_yes get_min_final_cltv_expiry
              get_description COIN 20 find_path_for_payment create_route_from_path
              is_route_sane_to_use get_routing_policy_for_channel node_a shuffle
              peer_connected peer_pay await_pending_payment wallet_unpaid
              "lnltc1m1sample" None 1 addr1 (InvoiceError "This invoice has expired"))
    as (w' & Hrun & Hinv & _).
  - reflexivity.
  - intros a d H. vm_compute in H. discriminate H.
  - reflexivity.
  - exists w'. split; [exact Hrun | exact Hinv].
Defined.

(** X8 on the sample invoice. *)
Lemma pay_zero_attempts_witness :
  exists w',
    _pay lndecode is_expired get_min_final_cltv_expiry get_description COIN 20
      find_path_for_payment create_route_from_path is_route_sane_to_use
      get_routing_policy_for_channel node_a shuffle peer_connected peer_pay
      await_pending_payment "lnltc1m1sample" None 0 wallet_unpaid
    = (Ok false, w')
    /\ effects w' = [Wallet_set_label "9f86d081" "coffee"].
Proof.
  destruct (pay_zero_attempts lndecode is_expired get_min_final_cltv_expiry
              get_description COIN 20 find_path_for_payment create_route_from_path
              is_route_sane_to_use get_routing_policy_for_channel node_a shuffle
              peer_connected peer_pay await_pending_payment wallet_unpaid
              "lnltc1m1sample" None addr1 addr1)
    as (w' & Hrun & _ & Heff).
  - reflexivity.
  - intros a d H. vm_compute in H. discriminate H.
  - reflexivity.
  - exists w'. split; [exact Hrun | exact Heff].
Defined.

(** X9 on a payment over our OPEN channel that the peer settles. *)
Lemma pay_to_route_final_status_witness :
  let r := _pay_to_route get_min_final_cltv_expiry COIN peer_connected peer_pay
             await_pending_payment [edge_open] addr1 "lnltc1m1sample" wallet_unpaid in
  r.1 = Ok true
  /\ match invoices r.2 !! bh2u (paymenthash addr1) with
     | Some (_, _, s) => s = PR_PAID
     | None => True
     end.
Proof.
  cbn zeta. split; [vm_compute; reflexivity|].
  apply (pay_to_route_final_status get_min_final_cltv_expiry COIN peer_connected peer_pay
           await_pending_payment [edge_open] addr1 "lnltc1m1sample" wallet_unpaid _ true).
  vm_compute. reflexivity.
Defined.

(** X10 on a route that starts over a channel that is not ours. *)
Lemma pay_to_route_unknown_channel_witness :
  exists msg,
    _pay_to_route get_min_final_cltv_expiry COIN peer_connected peer_pay
      await_pending_payment [edge_elsewhere] addr1 "lnltc1m1sample" wallet_unpaid
    = (Raise (Exception msg), wallet_unpaid).
Proof.
  apply (pay_to_route_unknown_channel get_min_final_cltv_expiry COIN peer_connected peer_pay
           await_pending_payment edge_elsewhere [] addr1 "lnltc1m1sample" wallet_unpaid).
  intros c Hin.
  assert (Hvals : channel_values wallet_unpaid = [chan_open]) by (vm_compute; reflexivity).
  rewrite Hvals in Hin. apply list_elem_of_singleton in Hin. subst c. discriminate.
Defined.

(** X11 with the peer of the first hop gone. *)
Lemma pay_to_route_peer_missing_witness :
  exists w',
    _pay_to_route get_min_final_cltv_expiry COIN peer_absent peer_pay
      await_pending_payment [edge_open] addr1 "lnltc1m1sample" wallet_unpaid
    = (Raise KeyError, w')
    /\ invoices w' !! bh2u (paymenthash addr1) = Some (Some 100000%Z, SENT, PR_INFLIGHT).
Proof.
  apply (pay_to_route_peer_missing get_min_final_cltv_expiry COIN peer_absent peer_pay
           await_pending_payment edge_open [] addr1 "lnltc1m1sample" wallet_unpaid 0%nat
           (Some 100000%Z) SENT PR_UNPAID).
  - vm_compute. reflexivity.
  - reflexivity.
  - vm_compute. reflexivity.
Defined.

(** X13 on the hint of two hops: the first edge leads to [node_b], the
    second to the payee. *)
Lemma route_through_hint_edges_witness :
  hint2 <> []
  /\ route_through_hint create_route_from_path get_routing_policy_for_channel node_a
       hash1 hint2 []
     = [RouteEdge.mk node_b [x00; x01] 1000 1 144; RouteEdge.mk hash1 [x00; x02] 2000 2 40].
Proof.
  assert (Hne : hint2 <> []) by discriminate.
  split; [exact Hne|].
  rewrite (route_through_hint_edges create_route_from_path get_routing_policy_for_channel
             node_a hash1 hint2 [] Hne).
  reflexivity.
Defined.

(** X14 on a prevout without separator. *)
Lemma try_redeem_malformed_prevout_witness :
  count_char ":" "f00d" <> 1%nat
  /\ try_redeem Examples.get_tx_height_conf 120 "f00d" dust_sweep empty_wallet
     = (Raise ValueError, empty_wallet).
Proof.
  assert (Hc : count_char ":" "f00d" <> 1%nat) by discriminate.
  split; [exact Hc|].
  apply (try_redeem_malformed_prevout Examples.get_tx_height_conf 120 empty_wallet "f00d"
           dust_sweep Hc).
Defined.

(** X15 with the CLTV lock pending and the CSV delay already served: the
    future transaction is registered with the CSV wait, which is negative. *)
Lemma try_redeem_broadcast_iff_witness :
  let tx := mkTransaction "c0de" [] in
  exists w',
    try_redeem Examples.get_tx_height_conf 120 "f00d:0"
      (SweepInfo.mk "our_ctx_htlc" (Some 2%Z) (Some 125%Z) (Some tx)) empty_wallet
    = (Ok tt, w')
    /\ effects w'
       = [Wallet_set_label "c0de" "our_ctx_htlc"; Wallet_add_future_tx tx (Some (-1)%Z)].
Proof.
  cbn zeta.
  destruct (try_redeem_broadcast_iff Examples.get_tx_height_conf 120 empty_wallet "f00d:0"
              "f00d" "0" (SweepInfo.mk "our_ctx_htlc" (Some 2%Z) (Some 125%Z)
                            (Some (mkTransaction "c0de" [])))
              (mkTransaction "c0de" []) eq_refl eq_refl)
    as (w' & Hrun & Heff & _).
  exists w'. split; [exact Hrun | exact Heff].
Defined.

(** X16 on the channel with distinct remote points. *)
Lemma force_close_channel_persists_then_broadcasts_witness :
  exists w',
    force_close_channel force_close_tx set_force_closed broadcast_transaction_raises
      [x0c; x01] wallet_fresh
    = (Ok (Some "c105e"), w')
    /\ effects w'
       = [Callback_channel 0; Callback_channels; Broadcast (mkTransaction "c105e" [])].
Proof.
  destruct (force_close_channel_persists_then_broadcasts force_close_tx set_force_closed
              broadcast_transaction_raises wallet_fresh [x0c; x01] 0%nat chan_fresh)
    as (w' & Hrun & _ & _ & _ & Heff).
  - reflexivity.
  - reflexivity.
  - discriminate.
  - exists w'. split; [exact Hrun | exact Heff].
Defined.

(** X18 at height 120, far from the expiry at 1000. *)
Lemma no_force_close_when_nothing_due_witness :
  should_channel_be_closed_due_to_expiring_htlcs 120 get_latest_ctn
    get_oldest_unrevoked_ctn htlcs_by_direction was_htlc_preimage_released 144 1 chan_open
  = false.
Proof.
  apply (no_force_close_when_nothing_due 120 get_latest_ctn get_oldest_unrevoked_ctn
           htlcs_by_direction was_htlc_preimage_released 144 1 chan_open).
  - intros sub dir ctn htlc_id htlc _ Hin _.
    apply list_elem_of_singleton in Hin. injection Hin as -> ->. reflexivity.
  - intros sub dir ctn htlc_id htlc _ Hin.
    apply list_elem_of_singleton in Hin. injection Hin as -> ->. reflexivity.
Defined.

(** X20 on three addresses: the host name is passed over for the first IP
    address. *)
Lemma choose_preferred_address_spec_witness :
  (forall n, (0 < n)%nat -> (random_index n < n)%nat)
  /\ choose_preferred_address is_ip_address random_index addresses
     = Ok ("148.251.87.112", 9735%Z, 1570000001%Z)
  /\ choose_preferred_address is_ip_address random_index [] = Raise AssertionError.
Proof.
  assert (Hrand : forall n, (0 < n)%nat -> (random_index n < n)%nat)
    by (intros n Hn; exact Hn).
  split; [exact Hrand|]. split; [reflexivity|].
  apply (choose_preferred_address_spec is_ip_address random_index [] Hrand). reflexivity.
Defined.

(** X24 on a bracketed IPv6 address. *)
Lemma maybe_listen_needs_one_colon_witness :
  maybe_listen int_of_string (Some "[2001:db8::1]:9735") = Raise ValueError.
Proof.
  apply (maybe_listen_needs_one_colon int_of_string "[2001:db8::1]:9735"); discriminate.
Defined.

(** X25 with five failing polls. *)
Lemma challenge_retries_without_pause_witness :
  Satochip.sleeps
    (Satochip.do_challenge_response sha256_hexdigest b64decode challenge
       (Satochip.Returns None :: Satochip.Returns None :: Satochip.Returns None
        :: replicate 5 Satochip.Fails)).2 = 0%nat.
Proof.
  apply (challenge_retries_without_pause sha256_hexdigest b64decode challenge "7d1f"
           (Satochip.VStr "c2lnbg==") eq_refl eq_refl None None None 5).
Defined.

(** X26 with 18 unanswered polls. *)
Lemma challenge_times_out_witness :
  exists trace,
    Satochip.do_challenge_response sha256_hexdigest b64decode challenge
      (Satochip.Returns None :: Satochip.Returns None :: Satochip.Returns None
       :: replicate 18 (Satochip.Returns None))
    = (Satochip.Done (<["reply_encrypt" := Satochip.VNone]> challenge), trace)
    /\ Satochip.sleeps trace = 18%nat.
Proof.
  apply (challenge_times_out sha256_hexdigest b64decode challenge "7d1f"
           (Satochip.VStr "c2lnbg==") eq_refl eq_refl None None None
           (replicate 18 (Satochip.Returns None))).
  - apply Forall_replicate. by right.
  - vm_compute. lia.
Defined.

(** X27 with a reply on the third poll. *)
Lemma challenge_reply_received_witness :
  exists trace,
    Satochip.do_challenge_response sha256_hexdigest b64decode challenge
      (Satochip.Returns None :: Satochip.Returns None :: Satochip.Returns None
       :: [Satochip.Returns None; Satochip.Fails]
          ++ [Satochip.Returns (Some "AQ=="); Satochip.Returns None])
    = (Satochip.Done (<["reply_encrypt" := Satochip.VBytes [x01]]> challenge),
       trace ++ [Satochip.Delete "h7d1f"])
    /\ Satochip.sleeps trace = 1%nat.
Proof.
  apply (challenge_reply_received sha256_hexdigest b64decode challenge "7d1f"
           (Satochip.VStr "c2lnbg==") eq_refl eq_refl None None None
           [Satochip.Returns None; Satochip.Fails] "AQ==" [x01] None []).
  - apply Forall_cons. split; [by right|].
    apply Forall_cons. split; [by left | apply Forall_nil_2].
  - cbn. lia.
  - discriminate.
  - reflexivity.
Defined.

(** X28 with 18 empty replies. *)
Lemma challenge_empty_replies_leave_d_witness :
  (Satochip.do_challenge_response sha256_hexdigest b64decode challenge
     (Satochip.Returns None :: Satochip.Returns None :: Satochip.Returns None
      :: replicate 18 (Satochip.Returns (Some EmptyString)))).1
  = Satochip.Done challenge.
Proof.
  apply (challenge_empty_replies_leave_d sha256_hexdigest b64decode challenge "7d1f"
           (Satochip.VStr "c2lnbg==") eq_refl eq_refl None None None
           (replicate 18 (Satochip.Returns (Some EmptyString)))).
  - apply Forall_replicate. by right.
  - vm_compute. lia.
Defined.

(** X29 in scenario S6. *)
Lemma add_request_stores_witness :
  exists w',
    _add_request_coro sha256 Examples.get_channel_info Examples.get_policy_for_node COIN
      1570000000 preimage1 lnencode 9 2 add_payment_request (Some 100000%Z) "coffee" 3600
      wallet_s6
    = (Ok "9f86d081", w')
    /\ get_preimage hash1 w' = (Ok preimage1, w')
    /\ invoices w' !! "9f86d081" = Some (Some 100000%Z, RECEIVED, PR_UNPAID).
Proof.
  destruct (add_request_stores sha256 Examples.get_channel_info Examples.get_policy_for_node
              COIN 1570000000 preimage1 lnencode 9 2 add_payment_request wallet_s6
              (Some 100000%Z) "coffee" 3600
              [Tag_r [(node_a, scid_open, 0, 0, 1)%Z]] "lnltc1sample")
    as (w' & Hrun & Hpre & Hinv & _).
  - reflexivity.
  - vm_compute. reflexivity.
  - reflexivity.
  - exists w'. split; [exact Hrun|]. split; [exact Hpre | exact Hinv].
Defined.

(** X30 with an encoder that raises. *)
Lemma add_request_fails_clean_witness :
  _add_request_coro sha256 Examples.get_channel_info Examples.get_policy_for_node COIN
    1570000000 preimage1 lnencode_raises 9 2 add_payment_request (Some 100000%Z) "coffee"
    3600 wallet_s6
  = (Raise ValueError, wallet_s6).
Proof.
  apply (add_request_fails_clean sha256 Examples.get_channel_info
           Examples.get_policy_for_node COIN 1570000000 preimage1 lnencode_raises 9 2
           add_payment_request wallet_s6 (Some 100000%Z) "coffee" 3600 ValueError).
  right. exists [Tag_r [(node_a, scid_open, 0, 0, 1)%Z]].
  split; [vm_compute; reflexivity | reflexivity].
Defined.
